(** * Pica debug utilities and the Vulkan texture-cache views

    A shallow embedding of
    - [src/video_core/debug_utils/debug_utils.cpp]
      (geometry dumper, shader-dump headers, register-write tracing,
      texture de-tiling), and
    - [src/video_core/renderer_vulkan/vk_texture_cache.h]
      (surface views, swizzle encoding, modification marking).

    Machine integers are [Z] with the wrap-around written where the code
    can reach it; C++ containers are lists and finite maps; global state
    is threaded explicitly. *)

From Stdlib Require Import ZArith Lia List.
From stdpp Require Import base option list gmap strings pretty.

Local Open Scope Z_scope.

(** ** Machine integers *)

Module Int.

Definition u32_mod : Z := 2 ^ 32.

(** Conversion to [u32]: reduction modulo 2^32. *)
Definition to_u32 (z : Z) : Z := z mod u32_mod.

(** Conversion to [int] (two's complement, 32 bits), as every mainstream
    compiler converts an out-of-range value. *)
Definition to_int (z : Z) : Z :=
  let r := z mod u32_mod in
  if decide (r < 2 ^ 31) then r else r - u32_mod.

Definition is_u8 (z : Z) : Prop := 0 ≤ z < 2 ^ 8.
Definition is_u32 (z : Z) : Prop := 0 ≤ z < 2 ^ 32.
Definition is_u64 (z : Z) : Prop := 0 ≤ z < 2 ^ 64.

End Int.

(** ** Logging

    [ERROR_LOG] lines are collected as entries: the format string and the
    integer arguments it is given. *)

Record LogEntry := { log_format : string; log_args : list Z }.

(** ** [Pica::DebugUtils] *)

Module DebugUtils.

(** *** [GeometryDumper] *)

(** [TriangleTopology] is declared in [video_core/pica.h]; [AddVertex]
    names two of its enumerators and sends every other value to its
    [default] branch. *)
Module TriangleTopology.
Inductive t : Type :=
| List
| ListIndexed
| Other (raw : Z).
End TriangleTopology.

Record array3 (A : Type) := Array3 { at0 : A; at1 : A; at2 : A }.
Arguments Array3 {A} _ _ _.
Arguments at0 {A} _.
Arguments at1 {A} _.
Arguments at2 {A} _.

Section Geometry.
(** Vertex coordinates are only stored, never computed with. *)
Context {float : Type}.

Record Vertex := { pos : array3 float }.
Record Face := { index : array3 Z }.

Record GeometryDumper := {
  vertices : list Vertex;
  faces : list Face;
}.

(** A default-constructed dumper: both vectors empty. *)
Definition fresh_dumper : GeometryDumper := {| vertices := []; faces := [] |}.

(** [AddVertex] either returns, or logs and calls [exit(0)]. *)
Inductive AddVertexResult :=
| Returned (g : GeometryDumper)
| Exited (status : Z) (logged : list LogEntry).

Definition AddVertex (p : array3 float) (topology : TriangleTopology.t)
    (g : GeometryDumper) : AddVertexResult :=
  let vertices' := vertices g ++ [ {| pos := Array3 (at0 p) (at1 p) (at2 p) |} ] in
  (* int num_vertices = vertices.size(); *)
  let num_vertices := Int.to_int (Z.of_nat (length vertices')) in
  match topology with
  | TriangleTopology.List
  | TriangleTopology.ListIndexed =>
      if decide (0 = Z.rem num_vertices 3) then
        Returned {| vertices := vertices';
                    faces := faces g ++
                      [ {| index := Array3 (Int.to_int (num_vertices - 3))
                                           (Int.to_int (num_vertices - 2))
                                           (Int.to_int (num_vertices - 1)) |} ] |}
      else
        Returned {| vertices := vertices'; faces := faces g |}
  | TriangleTopology.Other raw =>
      Exited 0 [ {| log_format := "Unknown triangle topology %x";
                    log_args := [Int.to_int raw] |} ]
  end.

(** A sequence of [AddVertex] calls; the process is gone after [exit]. *)
Fixpoint AddVertices (calls : list (array3 float * TriangleTopology.t))
    (g : GeometryDumper) : AddVertexResult :=
  match calls with
  | [] => Returned g
  | (p, topology) :: rest =>
      match AddVertex p topology g with
      | Returned g' => AddVertices rest g'
      | Exited status logged => Exited status logged
      end
  end.

End Geometry.
Arguments Vertex : clear implicits.
Arguments Face : clear implicits.
Arguments GeometryDumper : clear implicits.
Arguments AddVertexResult : clear implicits.

(** *** Shader-dump container headers

    The three headers are declared between [#pragma pack(1)] and
    [#pragma pack()].  A struct is embedded as its member list in
    declaration order; its layout follows the usual rule for a packed
    standard-layout struct: each member starts at the next offset that is
    a multiple of [min(pack, alignof(member))]. *)

Inductive ctype : Type := U8 | U16 | U32 | U64.

Definition sizeof (t : ctype) : Z :=
  match t with U8 => 1 | U16 => 2 | U32 => 4 | U64 => 8 end.

Definition alignof (pack : Z) (t : ctype) : Z := Z.min pack (sizeof t).

Definition align_up (offset alignment : Z) : Z :=
  ((offset + alignment - 1) / alignment) * alignment.

Record Member := { member_name : string; member_type : ctype }.

(** Offsets of the members, starting at [offset]. *)
Fixpoint member_offsets (pack offset : Z) (members : list Member) : list Z :=
  match members with
  | [] => []
  | m :: rest =>
      let start := align_up offset (alignof pack (member_type m)) in
      start :: member_offsets pack (start + sizeof (member_type m)) rest
  end.

(** End of the last member. *)
Fixpoint members_end (pack offset : Z) (members : list Member) : Z :=
  match members with
  | [] => offset
  | m :: rest =>
      let start := align_up offset (alignof pack (member_type m)) in
      members_end pack (start + sizeof (member_type m)) rest
  end.

Definition struct_align (pack : Z) (members : list Member) : Z :=
  fold_right (fun m a => Z.max (alignof pack (member_type m)) a) 1 members.

Definition struct_sizeof (pack : Z) (members : list Member) : Z :=
  align_up (members_end pack 0 members) (struct_align pack members).

(** Sum of the members' own sizes: what the struct occupies when nothing
    is padded. *)
Definition members_size (members : list Member) : Z :=
  foldr (fun m n => sizeof (member_type m) + n) 0 members.

(** Little-endian bytes of an unsigned value, [n] of them. *)
Fixpoint le_bytes (n : nat) (v : Z) : list Z :=
  match n with
  | O => []
  | S n' => Z.land v 255 :: le_bytes n' (Z.shiftr v 8)
  end.

(** The object representation of a struct on the (little-endian) host:
    members at their offsets, zero bytes in between and at the end. *)
Fixpoint members_bytes (pack offset : Z) (members : list (Member * Z)) : list Z :=
  match members with
  | [] => []
  | (m, v) :: rest =>
      let start := align_up offset (alignof pack (member_type m)) in
      replicate (Z.to_nat (start - offset)) 0
        ++ le_bytes (Z.to_nat (sizeof (member_type m))) v
        ++ members_bytes pack (start + sizeof (member_type m)) rest
  end.

Definition struct_bytes (pack : Z) (members : list (Member * Z)) : list Z :=
  let body := members_bytes pack 0 members in
  body ++ replicate (Z.to_nat (struct_sizeof pack (members.*1)) - length body)%nat 0.

Definition pragma_pack : Z := 1.

Definition ascii_codes (s : string) : list Z :=
  map (fun c => Z.of_N (Ascii.N_of_ascii c)) (String.list_ascii_of_string s).

Module DVLBHeader.
Definition MAGIC_WORD : Z := 0x424C5644.

Record t := {
  magic_word : Z;
  num_programs : Z;
}.

Definition members : list Member := [
  {| member_name := "magic_word"; member_type := U32 |};
  {| member_name := "num_programs"; member_type := U32 |} ].

Definition values (h : t) : list Z := [magic_word h; num_programs h].

Definition bytes (h : t) : list Z :=
  struct_bytes pragma_pack (zip members (values h)).
End DVLBHeader.

Module DVLPHeader.
Definition MAGIC_WORD : Z := 0x504C5644.

Record t := {
  magic_word : Z;
  version : Z;
  binary_offset : Z;
  binary_size_words : Z;
  swizzle_patterns_offset : Z;
  swizzle_patterns_num_entries : Z;
  unk2 : Z;
}.

Definition members : list Member := [
  {| member_name := "magic_word"; member_type := U32 |};
  {| member_name := "version"; member_type := U32 |};
  {| member_name := "binary_offset"; member_type := U32 |};
  {| member_name := "binary_size_words"; member_type := U32 |};
  {| member_name := "swizzle_patterns_offset"; member_type := U32 |};
  {| member_name := "swizzle_patterns_num_entries"; member_type := U32 |};
  {| member_name := "unk2"; member_type := U32 |} ].

Definition values (h : t) : list Z :=
  [magic_word h; version h; binary_offset h; binary_size_words h;
   swizzle_patterns_offset h; swizzle_patterns_num_entries h; unk2 h].

Definition bytes (h : t) : list Z :=
  struct_bytes pragma_pack (zip members (values h)).
End DVLPHeader.

Module DVLEHeader.
Definition MAGIC_WORD : Z := 0x454c5644.

Module ShaderType.
Definition VERTEX : Z := 0.
Definition GEOMETRY : Z := 1.
End ShaderType.

Record t := {
  magic_word : Z;
  pad1 : Z;
  type : Z;
  pad2 : Z;
  main_offset_words : Z;
  endmain_offset_words : Z;
  pad3 : Z;
  pad4 : Z;
  constant_table_offset : Z;
  constant_table_size : Z;
  label_table_offset : Z;
  label_table_size : Z;
  output_register_table_offset : Z;
  output_register_table_size : Z;
  uniform_table_offset : Z;
  uniform_table_size : Z;
  symbol_table_offset : Z;
  symbol_table_size : Z;
}.

Definition members : list Member := [
  {| member_name := "magic_word"; member_type := U32 |};
  {| member_name := "pad1"; member_type := U16 |};
  {| member_name := "type"; member_type := U8 |};
  {| member_name := "pad2"; member_type := U8 |};
  {| member_name := "main_offset_words"; member_type := U32 |};
  {| member_name := "endmain_offset_words"; member_type := U32 |};
  {| member_name := "pad3"; member_type := U32 |};
  {| member_name := "pad4"; member_type := U32 |};
  {| member_name := "constant_table_offset"; member_type := U32 |};
  {| member_name := "constant_table_size"; member_type := U32 |};
  {| member_name := "label_table_offset"; member_type := U32 |};
  {| member_name := "label_table_size"; member_type := U32 |};
  {| member_name := "output_register_table_offset"; member_type := U32 |};
  {| member_name := "output_register_table_size"; member_type := U32 |};
  {| member_name := "uniform_table_offset"; member_type := U32 |};
  {| member_name := "uniform_table_size"; member_type := U32 |};
  {| member_name := "symbol_table_offset"; member_type := U32 |};
  {| member_name := "symbol_table_size"; member_type := U32 |} ].

Definition values (h : t) : list Z :=
  [magic_word h; pad1 h; type h; pad2 h; main_offset_words h;
   endmain_offset_words h; pad3 h; pad4 h;
   constant_table_offset h; constant_table_size h;
   label_table_offset h; label_table_size h;
   output_register_table_offset h; output_register_table_size h;
   uniform_table_offset h; uniform_table_size h;
   symbol_table_offset h; symbol_table_size h].

Definition bytes (h : t) : list Z :=
  struct_bytes pragma_pack (zip members (values h)).
End DVLEHeader.

(** *** Register-write tracing

    The three file-scope variables [pica_trace], [pica_trace_mutex] and
    [is_pica_tracing] form the tracer.  Calls are taken one at a time, so
    every [lock] finds the mutex free and every call leaves it free; the
    mutex carries no information between calls and is not stored. *)

(** [PicaTrace] is declared in [debug_utils.h]; the code here uses its
    vector [writes] of [{id, value}] records. *)
Record PicaTrace := { writes : list (Z * Z) }.

Record Tracer := {
  pica_trace : option PicaTrace;   (* std::unique_ptr, None = null *)
  is_pica_tracing : Z;             (* static int *)
}.

Definition initial_tracer : Tracer :=
  {| pica_trace := None; is_pica_tracing := 0 |}.

Definition StartPicaTracing (s : Tracer) : Tracer * list LogEntry :=
  if decide (is_pica_tracing s ≠ 0) then
    (s, [ {| log_format := "StartPicaTracing called even though tracing already running!";
             log_args := [] |} ])
  else
    ({| pica_trace := Some {| writes := [] |}; is_pica_tracing := 1 |}, []).

Definition IsPicaTracing (s : Tracer) : bool :=
  bool_decide (is_pica_tracing s ≠ 0).

(** [None] stands for the undefined behaviour of dereferencing a null
    [pica_trace]. *)
Definition OnPicaRegWrite (id value : Z) (s : Tracer) : option Tracer :=
  if decide (is_pica_tracing s = 0) then Some s
  else (* lock taken *)
    if decide (is_pica_tracing s = 0) then Some s
    else
      match pica_trace s with
      | None => None
      | Some trace =>
          Some {| pica_trace := Some {| writes := writes trace ++ [(id, value)] |};
                  is_pica_tracing := is_pica_tracing s |}
      end.

Definition FinishPicaTracing (s : Tracer) : option PicaTrace * Tracer * list LogEntry :=
  if decide (is_pica_tracing s = 0) then
    (None, s,
     [ {| log_format := "FinishPicaTracing called even though tracing already running!";
          log_args := [] |} ])
  else
    (* is_pica_tracing = false; ret = std::move(pica_trace) *)
    (pica_trace s, {| pica_trace := None; is_pica_tracing := 0 |}, []).

(** A run of [OnPicaRegWrite] calls, in order. *)
Fixpoint OnPicaRegWrites (ws : list (Z * Z)) (s : Tracer) : option Tracer :=
  match ws with
  | [] => Some s
  | (id, value) :: rest => OnPicaRegWrite id value s ≫= OnPicaRegWrites rest
  end.

(** *** Effects of the dump functions

    What a dump function can touch outside its own frame: the files it
    writes, its function-local [static] counter, and the log. *)

Record World := {
  files : gmap string (list Z);
  shader_dump_index : Z;     (* static int dump_index in DumpShader *)
  texture_dump_index : Z;    (* static int dump_index in DumpTexture *)
  logged : list LogEntry;
}.

(** A statement of a [void] function body either falls through to the
    next statement or executes [return]. *)
Inductive Flow (A : Type) : Type :=
| Next (a : A)
| Return.
Arguments Next {A} _.
Arguments Return {A}.

Definition Block (A : Type) : Type := World → Flow A * World.

Definition next {A} (a : A) : Block A := fun w => (Next a, w).
Definition return_ : Block unit := fun w => (Return, w).
Definition seq_ {A B} (b : Block A) (k : A → Block B) : Block B :=
  fun w =>
    match b w with
    | (Next a, w') => k a w'
    | (Return, w') => (Return, w')
    end.

#[global] Instance Block_ret : MRet Block := @next.
#[global] Instance Block_bind : MBind Block := fun A B k b => seq_ b k.

Definition modify (f : World → World) : Block unit := fun w => (Next (), f w).
Definition read {A} (f : World → A) : Block A := fun w => (Next (f w), w).

Definition error_log (format : string) (args : list Z) : Block unit :=
  modify (fun w =>
    {| files := files w; shader_dump_index := shader_dump_index w;
       texture_dump_index := texture_dump_index w;
       logged := logged w ++ [ {| log_format := format; log_args := args |} ] |}).

Definition write_file (name : string) (content : list Z) : Block unit :=
  modify (fun w =>
    {| files := <[name := content]> (files w);
       shader_dump_index := shader_dump_index w;
       texture_dump_index := texture_dump_index w;
       logged := logged w |}).

(** Running a [void] function: the effect on the world. *)
Definition call (body : Block unit) (w : World) : World := (body w).2.

(** *** Texture de-tiling (the loop nest of [DumpTexture]) *)

(** One iteration of the inner [for (block_size_index ...)] loop: the
    accumulator is [texel_index_within_tile].  With [0 <= x, y] the
    partial sums stay below 64, so [int] arithmetic never wraps. *)
Definition sub_tile_step (x y : Z) (texel_index_within_tile block_size_index : Z) : Z :=
  let sub_tile_width := Z.shiftl 1 block_size_index in
  let sub_tile_height := Z.shiftl 1 block_size_index in
  let sub_tile_index := Z.shiftl (Z.land x sub_tile_width) block_size_index in
  let sub_tile_index :=
    sub_tile_index + 2 * Z.shiftl (Z.land y sub_tile_height) block_size_index in
  texel_index_within_tile + sub_tile_index.

(** [int texel_index_within_tile = 0; for (block_size_index = 0; < 3; ++)]. *)
Definition texel_index_within_tile (x y : Z) : Z :=
  fold_left (sub_tile_step x y) (seqZ 0 3) 0.

Definition block_width : Z := 8.
Definition block_height : Z := 8.

(** [(x / block_width) * block_width]; C++ division truncates. *)
Definition coarse_x (x : Z) : Z := (x ÷ block_width) * block_width.
Definition coarse_y (y : Z) : Z := (y ÷ block_height) * block_height.

(** [u32 row_stride = texture_config.width * 3]. *)
Definition row_stride (width : Z) : Z := Int.to_u32 (width * 3).

(** The byte offset of [source_ptr] from [data].  The three summands are
    added to the pointer one after the other, so each is formed in its
    own type and their sum is not reduced: [coarse_x * block_height * 3]
    is an [int] product (wrapping as compilers make it wrap),
    [coarse_y * row_stride] is a [u32] product since [row_stride] is a
    [u32], and [texel_index_within_tile * 3] is an [int] below 192. *)
Definition source_offset (width x y : Z) : Z :=
  Int.to_int (coarse_x x * block_height * 3)
  + Int.to_u32 (coarse_y y * row_stride width)
  + texel_index_within_tile x y * 3.

(** The raster [buf] filled by the two outer loops: [buf] is written at
    [3 * x + y * row_stride], that is row by row, three bytes per texel,
    with the source's byte order reversed.  A read outside [data] is
    undefined in the source; here it yields 0. *)
Definition detile (width height : Z) (data : list Z) : list Z :=
  y ← seqZ 0 height;
  x ← seqZ 0 width;
  let source_ptr := source_offset width x y in
  [ data !!! Z.to_nat (source_ptr + 2);
    data !!! Z.to_nat (source_ptr + 1);
    data !!! Z.to_nat source_ptr ].

(** *** [DumpShader] *)

(** [Pica::Regs::VSOutputAttributes] is declared in [video_core/pica.h];
    these are the semantics [DumpShader] names, any other value of the
    register field being [Unnamed]. *)
Module OutputAttributes.
Inductive Semantic : Type :=
| POSITION_X | POSITION_Y | POSITION_Z | POSITION_W
| COLOR_R | COLOR_G | COLOR_B | COLOR_A
| TEXCOORD0_U | TEXCOORD0_V
| TEXCOORD1_U | TEXCOORD1_V
| TEXCOORD2_U | TEXCOORD2_V
| INVALID
| Unnamed (raw : Z).

#[global] Instance Semantic_eq_dec : EqDecision Semantic.
Proof. solve_decision. Defined.

Record t := { map_x : Semantic; map_y : Semantic; map_z : Semantic; map_w : Semantic }.
End OutputAttributes.

Module OutputRegisterInfo.
Definition POSITION : Z := 0.
Definition COLOR : Z := 2.
Definition TEXCOORD0 : Z := 3.
Definition TEXCOORD1 : Z := 5.
Definition TEXCOORD2 : Z := 6.

(** The bit fields of the [u64] union. *)
Record t := { type : Z; id : Z; component_mask : Z }.

Definition hex (info : t) : Z :=
  Z.lor (Z.land (type info) (Z.ones 16))
    (Z.lor (Z.shiftl (Z.land (id info) (Z.ones 16)) 16)
           (Z.shiftl (Z.land (component_mask info) (Z.ones 4)) 32)).
End OutputRegisterInfo.

Section Shader.
Import OutputAttributes.

(** [Semantic::Value()], the numeric value of a semantic (from [pica.h]). *)
Variable semantic_value : Semantic → Z.

(** The macro [_dbg_assert_msg_(GPU, 0, message)], whose definition is
    in [common/] and depends on the build: the log entries a failed
    debug assertion leaves before execution goes on, none in a build that
    compiles the macro out. *)
Variable dbg_assert_msg : string → list LogEntry.

(** The [std::map] built in the loop; [None] is [map.at] throwing
    [std::out_of_range]. *)
Definition semantic_map (semantic : Semantic) : option (Z * Z) :=
  match semantic with
  | POSITION_X => Some (OutputRegisterInfo.POSITION, 1)
  | POSITION_Y => Some (OutputRegisterInfo.POSITION, 2)
  | POSITION_Z => Some (OutputRegisterInfo.POSITION, 4)
  | POSITION_W => Some (OutputRegisterInfo.POSITION, 8)
  | COLOR_R => Some (OutputRegisterInfo.COLOR, 1)
  | COLOR_G => Some (OutputRegisterInfo.COLOR, 2)
  | COLOR_B => Some (OutputRegisterInfo.COLOR, 4)
  | COLOR_A => Some (OutputRegisterInfo.COLOR, 8)
  | TEXCOORD0_U => Some (OutputRegisterInfo.TEXCOORD0, 1)
  | TEXCOORD0_V => Some (OutputRegisterInfo.TEXCOORD0, 2)
  | TEXCOORD1_U => Some (OutputRegisterInfo.TEXCOORD1, 1)
  | TEXCOORD1_V => Some (OutputRegisterInfo.TEXCOORD1, 2)
  | TEXCOORD2_U => Some (OutputRegisterInfo.TEXCOORD2, 1)
  | TEXCOORD2_V => Some (OutputRegisterInfo.TEXCOORD2, 2)
  | INVALID | Unnamed _ => None
  end.

(** [it->component_mask = it->component_mask | component_mask] at the
    first entry [find_if] accepts. *)
Fixpoint merge_mask (i type component_mask : Z) (table : list OutputRegisterInfo.t)
    : option (list OutputRegisterInfo.t) :=
  match table with
  | [] => None
  | info :: rest =>
      if decide (OutputRegisterInfo.id info = i ∧ OutputRegisterInfo.type info = type) then
        Some ({| OutputRegisterInfo.type := OutputRegisterInfo.type info;
                 OutputRegisterInfo.id := OutputRegisterInfo.id info;
                 OutputRegisterInfo.component_mask :=
                   Z.lor (OutputRegisterInfo.component_mask info) component_mask |} :: rest)
      else cons info <$> merge_mask i type component_mask rest
  end.

(** Body of the loop over the four semantics of attribute [i]. *)
Definition add_semantic (i : Z) (attributes : OutputAttributes.t)
    (state : list OutputRegisterInfo.t * list LogEntry) (semantic : Semantic)
    : list OutputRegisterInfo.t * list LogEntry :=
  let '(output_info_table, log) := state in
  if decide (semantic = INVALID) then state
  else
    match semantic_map semantic with
    | Some (type, component_mask) =>
        match merge_mask i type component_mask output_info_table with
        | Some table' => (table', log)
        | None =>
            (output_info_table ++
               [ {| OutputRegisterInfo.type := type;
                    OutputRegisterInfo.id := i;
                    OutputRegisterInfo.component_mask := component_mask |} ],
             log)
        end
    | None =>
        (output_info_table,
         log ++ dbg_assert_msg "Unknown output attribute mapping"
             ++ [ {| log_format := "Unknown output attribute mapping: %03x, %03x, %03x, %03x";
                     log_args := semantic_value <$>
                       [map_x attributes; map_y attributes;
                        map_z attributes; map_w attributes] |} ])
    end.

(** The loop [for (int i = 0; i < 7; ++i)] over [output_attributes]. *)
Definition build_output_info_table (output_attributes : list OutputAttributes.t)
    : list OutputRegisterInfo.t * list LogEntry :=
  fold_left
    (fun state '(i, attributes) =>
       fold_left (add_semantic i attributes)
         [map_x attributes; map_y attributes; map_z attributes; map_w attributes]
         state)
    (zip (seqZ 0 7) output_attributes)
    ([], []).

Definition words_bytes (words : list Z) : list Z :=
  w ← words; le_bytes 4 w.

(** The bytes the writing queue holds when the file is written: every
    queued pointer is read at that time, so the headers carry their final
    field values. *)
Definition shader_file (binary_data : list Z) (binary_size : Z)
    (swizzle_data : list Z) (swizzle_size : Z) (main_offset : Z)
    (output_info_table : list OutputRegisterInfo.t) : list Z :=
  let sizeof_dvlb := struct_sizeof pragma_pack DVLBHeader.members + sizeof U32 in
  let sizeof_dvlp := struct_sizeof pragma_pack DVLPHeader.members in
  let sizeof_dvle := struct_sizeof pragma_pack DVLEHeader.members in
  let dvlp_offset := sizeof_dvlb in
  let dvle_offset := Int.to_u32 (dvlp_offset + sizeof_dvlp) in
  let write_offset := Int.to_u32 (dvle_offset + sizeof_dvle) in
  let binary_offset := Int.to_u32 (write_offset - dvlp_offset) in
  let write_offset := Int.to_u32 (write_offset + Int.to_u32 (binary_size * 4)) in
  let swizzle_patterns_offset := Int.to_u32 (write_offset - dvlp_offset) in
  let write_offset := Int.to_u32 (write_offset + 8 * Int.to_u32 swizzle_size) in
  let output_register_table_offset := Int.to_u32 (write_offset - dvle_offset) in
  let dvlp :=
    {| DVLPHeader.magic_word := DVLPHeader.MAGIC_WORD;
       DVLPHeader.version := 0;
       DVLPHeader.binary_offset := binary_offset;
       DVLPHeader.binary_size_words := binary_size;
       DVLPHeader.swizzle_patterns_offset := swizzle_patterns_offset;
       DVLPHeader.swizzle_patterns_num_entries := swizzle_size;
       DVLPHeader.unk2 := 0 |} in
  let dvle :=
    {| DVLEHeader.magic_word := DVLEHeader.MAGIC_WORD;
       DVLEHeader.pad1 := 0; DVLEHeader.type := 0; DVLEHeader.pad2 := 0;
       DVLEHeader.main_offset_words := main_offset;
       DVLEHeader.endmain_offset_words := 0;
       DVLEHeader.pad3 := 0; DVLEHeader.pad4 := 0;
       DVLEHeader.constant_table_offset := 0; DVLEHeader.constant_table_size := 0;
       DVLEHeader.label_table_offset := 0; DVLEHeader.label_table_size := 0;
       DVLEHeader.output_register_table_offset := output_register_table_offset;
       DVLEHeader.output_register_table_size :=
         Int.to_u32 (Z.of_nat (length output_info_table));
       DVLEHeader.uniform_table_offset := 0; DVLEHeader.uniform_table_size := 0;
       DVLEHeader.symbol_table_offset := 0; DVLEHeader.symbol_table_size := 0 |} in
  DVLBHeader.bytes {| DVLBHeader.magic_word := DVLBHeader.MAGIC_WORD;
                      DVLBHeader.num_programs := 1 |}
    ++ le_bytes 4 dvle_offset
    ++ DVLPHeader.bytes dvlp
    ++ DVLEHeader.bytes dvle
    ++ words_bytes (take (Z.to_nat binary_size) binary_data)
    ++ (w ← take (Z.to_nat swizzle_size) swizzle_data; le_bytes 4 w ++ le_bytes 4 0)
    ++ (info ← output_info_table; le_bytes 8 (OutputRegisterInfo.hex info)).

Definition next_shader_dump_index : Block Z := fun w =>
  let index := Int.to_int (shader_dump_index w + 1) in
  (Next index,
   {| files := files w; shader_dump_index := index;
      texture_dump_index := texture_dump_index w; logged := logged w |}).

Definition DumpShader (binary_data : list Z) (binary_size : Z)
    (swizzle_data : list Z) (swizzle_size : Z) (main_offset : Z)
    (output_attributes : list OutputAttributes.t) : Block unit :=
  (* NOTE: Permanently enabling this just trashes hard disks for no reason.
           Hence, this is currently disabled. *)
  return_ ;;
  let '(output_info_table, log) := build_output_info_table output_attributes in
  modify (fun w =>
    {| files := files w; shader_dump_index := shader_dump_index w;
       texture_dump_index := texture_dump_index w;
       logged := logged w ++ log |}) ;;
  dump_index ← next_shader_dump_index;
  write_file ("shader_dump" +:+ pretty dump_index +:+ ".shbin")
    (shader_file binary_data binary_size swizzle_data swizzle_size main_offset
       output_info_table).

End Shader.

(** *** [DumpTexture] *)

(** [Pica::Regs::TextureConfig] (from [pica.h]): the two fields read here. *)
Record TextureConfig := { width : Z; height : Z }.

Section Texture.

(** Whether the build defines [HAVE_PNG]. *)
Variable HAVE_PNG : bool.

(** libpng, from [png_create_write_struct] to [png_write_end]: the file
    content for an RGB raster of the given size, or the message logged on
    the way to [finalise]. *)
Variable png_write : Z → Z → list Z → list Z + string.

Definition next_texture_dump_index : Block Z := fun w =>
  let index := Int.to_int (texture_dump_index w + 1) in
  (Next index,
   {| files := files w; shader_dump_index := shader_dump_index w;
      texture_dump_index := index; logged := logged w |}).

(** [data] is a pointer: [None] is null. *)
Definition DumpTexture (texture_config : TextureConfig) (data : option (list Z))
    : Block unit :=
  (* NOTE: Permanently enabling this just trashes hard disks for no reason.
           Hence, this is currently disabled. *)
  return_ ;;
  if negb HAVE_PNG then return_
  else
    match data with
    | None => return_
    | Some data =>
        dump_index ← next_texture_dump_index;
        let filename := "texture_dump" +:+ pretty dump_index +:+ ".png" in
        (* File::IOFile fp(filename, "wb") *)
        write_file filename [] ;;
        match png_write (width texture_config) (height texture_config)
                (detile (width texture_config) (height texture_config) data) with
        | inl content => write_file filename content
        | inr message => error_log message []
        end
    end.

End Texture.

End DebugUtils.

(** ** [Vulkan] texture cache: surfaces and views *)

Module Vulkan.

(** [Tegra::Texture::SwizzleSource] is declared in
    [video_core/textures/texture.h]; a selector is handled through its
    underlying integer value, which is what [static_cast<u32>] reads. *)
Definition SwizzleSource : Type := Z.

(** [CachedSurfaceView::EncodeSwizzle]. *)
Definition EncodeSwizzle (x_source y_source z_source w_source : SwizzleSource) : Z :=
  Z.lor
    (Z.lor
       (Z.lor (Int.to_u32 (Z.shiftl (Int.to_u32 x_source) 24))
              (Int.to_u32 (Z.shiftl (Int.to_u32 y_source) 16)))
       (Int.to_u32 (Z.shiftl (Int.to_u32 z_source) 8)))
    (Int.to_u32 w_source).

(** The part of a surface that [MarkAsModified] reaches. *)
Record CachedSurface := {
  is_modified : bool;
  modification_tick : Z;    (* u64 *)
}.

(** Modelled from the spec: [SurfaceBase::MarkAsModified(bool, u64)], which
    [CachedSurface] inherits from [video_core/texture_cache/surface_base.h];
    that header is not part of the sources at hand.  The spec (4.2):
    "records the latest tick at which any writer touched this Surface
    [...] monotonic, last-write-wins, never decreases", and (3): "Holds a
    monotonically non-decreasing modification tick".  A write carrying a
    tick at or after the recorded one wins; an older tick leaves the
    recorded one in place. *)
Definition SurfaceBase_MarkAsModified (is_modified_ : bool) (tick : Z)
    (s : CachedSurface) : CachedSurface :=
  {| is_modified := is_modified_;
     modification_tick := Z.max (modification_tick s) tick |}.

(** A native image view, as the device hands it out: which creation it
    was, the subresource range it covers and its component mapping. *)
Record ImageView := {
  created_as : nat;
  view_base_layer : Z;
  view_num_layers : Z;
  view_base_level : Z;
  view_num_levels : Z;
  components : SwizzleSource * SwizzleSource * SwizzleSource * SwizzleSource;
}.

(** The device, as far as views see it: the image views created so far. *)
Definition Device : Type := list ImageView.

(** [CachedSurfaceView]: [surface] is a reference, kept as the address
    of the surface in the store of surfaces. *)
Record CachedSurfaceView := {
  surface : nat;
  base_layer : Z;
  num_layers : Z;
  base_level : Z;
  num_levels : Z;
  view_cache : gmap Z ImageView;
}.

Definition set_view_cache (cache : gmap Z ImageView) (v : CachedSurfaceView)
    : CachedSurfaceView :=
  {| surface := surface v;
     base_layer := base_layer v; num_layers := num_layers v;
     base_level := base_level v; num_levels := num_levels v;
     view_cache := cache |}.

(** Modelled from the spec: the four-argument [GetHandle], declared in the
    header and defined in [vk_texture_cache.cpp], which is not part of
    the sources at hand.  The spec (4.3): "computes a 32-bit key by
    packing each 8-bit selector; looks up the per-View swizzle cache; on
    miss, constructs a new native sub-object scoped to (base_layer,
    num_layers, base_level, num_levels) and inserts it; the cache is never
    evicted before the View itself is destroyed". *)
Definition GetHandle (x_source y_source z_source w_source : SwizzleSource)
    (v : CachedSurfaceView) (device : Device)
    : ImageView * CachedSurfaceView * Device :=
  let swizzle := EncodeSwizzle x_source y_source z_source w_source in
  match view_cache v !! swizzle with
  | Some image_view => (image_view, v, device)
  | None =>
      let image_view :=
        {| created_as := length device;
           view_base_layer := base_layer v; view_num_layers := num_layers v;
           view_base_level := base_level v; view_num_levels := num_levels v;
           components := (x_source, y_source, z_source, w_source) |} in
      (image_view, set_view_cache (<[swizzle := image_view]> (view_cache v)) v,
       device ++ [image_view])
  end.

Section SwizzleSources.
(** The enumerators [SwizzleSource::R], [G], [B] and [A]. *)
Variables R G B A : SwizzleSource.

(** The zero-argument [GetHandle]. *)
Definition GetHandle0 (v : CachedSurfaceView) (device : Device)
    : ImageView * CachedSurfaceView * Device :=
  GetHandle R G B A v device.

End SwizzleSources.

Definition IsSameSurface (v rhs : CachedSurfaceView) : bool :=
  bool_decide (surface v = surface rhs).

(** [CachedSurfaceView::MarkAsModified]: [surface.MarkAsModified(true, tick)],
    acting on the surface the view refers to.  A view never outlives its
    surface; on a dangling reference the store is left as it is. *)
Definition MarkAsModified (v : CachedSurfaceView) (tick : Z)
    (surfaces : gmap nat CachedSurface) : gmap nat CachedSurface :=
  alter (SurfaceBase_MarkAsModified true tick) (surface v) surfaces.

(** A run of writes, each through some view, in order. *)
Definition MarkAllAsModified (marks : list (CachedSurfaceView * Z))
    (surfaces : gmap nat CachedSurface) : gmap nat CachedSurface :=
  fold_left (fun heap '(v, tick) => MarkAsModified v tick heap) marks surfaces.

End Vulkan.

(** ** Reference definitions for the tiled layout

    These follow the documentation, not the code: the closed form of the
    interleave, the tile picture drawn in the comment of [DumpTexture],
    and the reading direction of the mapping. *)

Module Tiling.
Import DebugUtils.

(** The contribution of one nesting level:
    [((x & bit) << level) + 2 * ((y & bit) << level)], [bit = 1 << level]. *)
Definition level_term (x y level : Z) : Z :=
  Z.shiftl (Z.land x (Z.shiftl 1 level)) level
  + 2 * Z.shiftl (Z.land y (Z.shiftl 1 level)) level.

Definition zorder_interleave (x y : Z) : Z :=
  level_term x y 0 + level_term x y 1 + level_term x y 2.

(** The same index read bit by bit: the bits of [x] land on the even
    positions, those of [y] on the odd ones. *)
Definition bit (v i : Z) : Z := Z.b2z (Z.testbit v i).

Definition morton (x y : Z) : Z :=
  bit x 0 + 2 * bit y 0 + 4 * bit x 1 + 8 * bit y 1 + 16 * bit x 2 + 32 * bit y 2.

(** The 8x8 tile as the comment in [DumpTexture] draws it, top row
    ([y = 7]) first. *)
Definition documented_tile : list (list Z) :=
  [ [42; 43; 46; 47; 58; 59; 62; 63];
    [40; 41; 44; 45; 56; 57; 60; 61];
    [34; 35; 38; 39; 50; 51; 54; 55];
    [32; 33; 36; 37; 48; 49; 52; 53];
    [10; 11; 14; 15; 26; 27; 30; 31];
    [ 8;  9; 12; 13; 24; 25; 28; 29];
    [ 2;  3;  6;  7; 18; 19; 22; 23];
    [ 0;  1;  4;  5; 16; 17; 20; 21] ].

Definition documented_index (x y : Z) : option Z :=
  documented_tile !! Z.to_nat (7 - y) ≫= fun row => row !! Z.to_nat x.

(** The indices of the texels of row [y], left to right. *)
Definition tile_row (y : Z) : list Z :=
  (fun x => texel_index_within_tile x y) <$> seqZ 0 8.

(** The indices of the 2x2 quad whose lower left texel is
    [(2 * qx, 2 * qy)], in the order lower left, lower right, upper left,
    upper right. *)
Definition quad (qx qy : Z) : list Z :=
  [ texel_index_within_tile (2 * qx) (2 * qy);
    texel_index_within_tile (2 * qx + 1) (2 * qy);
    texel_index_within_tile (2 * qx) (2 * qy + 1);
    texel_index_within_tile (2 * qx + 1) (2 * qy + 1) ].

(** The opposite direction: the texel a tile index stands for. *)
Definition texel_of_index (i : Z) : Z * Z :=
  (bit i 0 + 2 * bit i 2 + 4 * bit i 4,
   bit i 1 + 2 * bit i 3 + 4 * bit i 5).

(** Where [DumpTexture] reads texel [(x, y)] from: the origin of its tile
    and the index within the tile, the three quantities [source_ptr] is
    formed from. *)
Definition tile_address (x y : Z) : Z * Z * Z :=
  (coarse_x x, coarse_y y, texel_index_within_tile x y).

Definition texel_of_address (a : Z * Z * Z) : Z * Z :=
  let '(tile_x, tile_y, i) := a in
  (tile_x + (texel_of_index i).1, tile_y + (texel_of_index i).2).

End Tiling.

(** ** Reference definitions for the tracer, the surfaces and the dumper *)

(** A well formed tracer: when tracing is active a trace is installed. *)
Definition tracer_ok (s : DebugUtils.Tracer) : Prop :=
  DebugUtils.is_pica_tracing s ≠ 0 → is_Some (DebugUtils.pica_trace s).

(** The latest of [start] and the ticks that [marks] writes through
    views of the surface at address [a]. *)
Definition latest_tick (a : nat) (marks : list (Vulkan.CachedSurfaceView * Z))
    (start : Z) : Z :=
  fold_left (fun latest '(v, tick) =>
               if decide (Vulkan.surface v = a) then Z.max latest tick else latest)
            marks start.

Module Triangles.
Import DebugUtils.

(** The face of the [k]-th triangle of a list: vertices [3k, 3k+1, 3k+2]. *)
Definition triangle (k : Z) : Face :=
  {| index := Array3 (3 * k) (3 * k + 1) (3 * k + 2) |}.

Definition triangles (count : Z) : list Face := triangle <$> seqZ 0 count.

Definition is_list (topology : TriangleTopology.t) : Prop :=
  topology = TriangleTopology.List ∨ topology = TriangleTopology.ListIndexed.

End Triangles.

(** ** Reference definitions for the further properties *)

(** An image of whole tiles whose raster fits the 32-bit offsets. *)
Definition tiled_image (width height : Z) : Prop :=
  0 ≤ width ∧ 0 ≤ height ∧ width mod 8 = 0 ∧ height mod 8 = 0
  ∧ width * height * 3 ≤ 2 ^ 32.

(** A width for which the [int] product [coarse_x * block_height * 3]
    stays within [INT_MAX] in every column: the last tile column starts
    at [width - 8]. *)
Definition int_addressable (width : Z) : Prop :=
  (width - 8) * (DebugUtils.block_height * 3) ≤ 2 ^ 31 - 1.


(** One row of the raster [detile] builds. *)
Definition detile_row (width : Z) (data : list Z) (y : Z) : list Z :=
  x ← seqZ 0 width;
  let source_ptr := DebugUtils.source_offset width x y in
  [ data !!! Z.to_nat (source_ptr + 2);
    data !!! Z.to_nat (source_ptr + 1);
    data !!! Z.to_nat source_ptr ].


(** The calls of the tracing interface, and a run of them on the tracer;
    what [IsPicaTracing] and [FinishPicaTracing] return is dropped. *)
Inductive TracerCall : Type :=
| CallStart
| CallIsTracing
| CallWrite (id value : Z)
| CallFinish.

Definition tracer_call (c : TracerCall) (s : DebugUtils.Tracer)
    : option DebugUtils.Tracer :=
  match c with
  | CallStart => Some (DebugUtils.StartPicaTracing s).1
  | CallIsTracing => Some s
  | CallWrite id value => DebugUtils.OnPicaRegWrite id value s
  | CallFinish => Some (DebugUtils.FinishPicaTracing s).1.2
  end.

Fixpoint tracer_run (calls : list TracerCall) (s : DebugUtils.Tracer)
    : option DebugUtils.Tracer :=
  match calls with
  | [] => Some s
  | c :: rest => tracer_call c s ≫= tracer_run rest
  end.

(** The tracer seen from outside: idle, or in a session that has
    collected some writes. *)
Definition Session : Type := option (list (Z * Z)).

Definition session_call (session : Session) (c : TracerCall) : Session :=
  match c, session with
  | CallStart, None => Some []
  | CallStart, Some ws => Some ws
  | CallIsTracing, _ => session
  | CallWrite id value, Some ws => Some (ws ++ [(id, value)])
  | CallWrite _ _, None => None
  | CallFinish, _ => None
  end.

Definition tracer_of_session (session : Session) : DebugUtils.Tracer :=
  match session with
  | None => DebugUtils.initial_tracer
  | Some ws =>
      {| DebugUtils.pica_trace := Some {| DebugUtils.writes := ws |};
         DebugUtils.is_pica_tracing := 1 |}
  end.

(** What a reader of the output register table finds for register [i]
    and type [type]: the component mask of the first entry with that
    register and type, 0 when there is none. *)
Fixpoint table_mask (table : list DebugUtils.OutputRegisterInfo.t) (i type : Z) : Z :=
  match table with
  | [] => 0
  | info :: rest =>
      if decide (DebugUtils.OutputRegisterInfo.id info = i
                 ∧ DebugUtils.OutputRegisterInfo.type info = type)
      then DebugUtils.OutputRegisterInfo.component_mask info
      else table_mask rest i type
  end.

(** The component bit a semantic stands for in a register of type
    [type]: 0 when it belongs to another type or has no mapping. *)
Definition semantic_mask (semantic : DebugUtils.OutputAttributes.Semantic)
    (type : Z) : Z :=
  match DebugUtils.semantic_map semantic with
  | Some (type', component_mask) =>
      if decide (type' = type) then component_mask else 0
  | None => 0
  end.

Definition attribute_mask (attributes : DebugUtils.OutputAttributes.t) (type : Z) : Z :=
  Z.lor (semantic_mask (DebugUtils.OutputAttributes.map_x attributes) type)
    (Z.lor (semantic_mask (DebugUtils.OutputAttributes.map_y attributes) type)
       (Z.lor (semantic_mask (DebugUtils.OutputAttributes.map_z attributes) type)
              (semantic_mask (DebugUtils.OutputAttributes.map_w attributes) type))).

Definition table_key (info : DebugUtils.OutputRegisterInfo.t) : Z * Z :=
  (DebugUtils.OutputRegisterInfo.id info, DebugUtils.OutputRegisterInfo.type info).

(** The four semantics of an attribute, in the order the loop visits
    them, and how many of them are neither [INVALID] nor mapped. *)
Definition semantics_of (attributes : DebugUtils.OutputAttributes.t)
    : list DebugUtils.OutputAttributes.Semantic :=
  [ DebugUtils.OutputAttributes.map_x attributes;
    DebugUtils.OutputAttributes.map_y attributes;
    DebugUtils.OutputAttributes.map_z attributes;
    DebugUtils.OutputAttributes.map_w attributes ].

Definition unknown_semantic (semantic : DebugUtils.OutputAttributes.Semantic) : bool :=
  match semantic with
  | DebugUtils.OutputAttributes.Unnamed _ => true
  | _ => false
  end.

Definition unknown_semantics (output_attributes : list DebugUtils.OutputAttributes.t)
    : nat :=
  length (filter (fun semantic => unknown_semantic semantic = true)
            (take 7 output_attributes ≫= semantics_of)).

(** What an unknown semantic of [attributes] leaves in the log: the
    entries of the failed debug assertion, then the error that lists the
    four semantics of the attribute. *)
Definition unknown_semantic_log
    (semantic_value : DebugUtils.OutputAttributes.Semantic → Z)
    (dbg_assert_msg : string → list LogEntry)
    (attributes : DebugUtils.OutputAttributes.t) : list LogEntry :=
  dbg_assert_msg "Unknown output attribute mapping"
  ++ [ {| log_format := "Unknown output attribute mapping: %03x, %03x, %03x, %03x";
          log_args := semantic_value <$> semantics_of attributes |} ].

Definition unknown_semantics_log
    (semantic_value : DebugUtils.OutputAttributes.Semantic → Z)
    (dbg_assert_msg : string → list LogEntry)
    (output_attributes : list DebugUtils.OutputAttributes.t) : list LogEntry :=
  attributes ← take 7 output_attributes;
  semantic ← semantics_of attributes;
  if unknown_semantic semantic
  then unknown_semantic_log semantic_value dbg_assert_msg attributes
  else [].

(** The outer loop of [build_output_info_table], started at register [m]
    for [k] registers with a table and log already begun. *)
Definition outer_loop_from (semantic_value : DebugUtils.OutputAttributes.Semantic → Z)
    (dbg_assert_msg : string → list LogEntry)
    (m : Z) (k : nat) (output_attributes : list DebugUtils.OutputAttributes.t)
    (state : list DebugUtils.OutputRegisterInfo.t * list LogEntry)
    : list DebugUtils.OutputRegisterInfo.t * list LogEntry :=
  fold_left
    (fun state '(i, attributes) =>
       fold_left (DebugUtils.add_semantic semantic_value dbg_assert_msg i attributes)
         [DebugUtils.OutputAttributes.map_x attributes;
          DebugUtils.OutputAttributes.map_y attributes;
          DebugUtils.OutputAttributes.map_z attributes;
          DebugUtils.OutputAttributes.map_w attributes]
         state)
    (zip (seqZ m (Z.of_nat k)) output_attributes)
    state.

(** Reading a dump back: the value of little-endian bytes, and the
    [u32] found at a byte offset of a file. *)
Fixpoint le_value (bytes : list Z) : Z :=
  match bytes with
  | [] => 0
  | b :: rest => b + 256 * le_value rest
  end.

Definition read_u32 (file : list Z) (offset : Z) : Z :=
  le_value (take 4 (drop (Z.to_nat offset) file)).

(** The bytes at [offset] and after. *)
Definition file_from (file : list Z) (offset : Z) : list Z :=
  drop (Z.to_nat offset) file.

(** The 26 little-endian words that open a shader dump: the program
    table with its one entry, the program blob header and the program
    header, for a binary of [binary_size] words, [swizzle_size] swizzle
    patterns and [table_size] output registers. *)
Definition shader_fields (binary_size swizzle_size main_offset table_size : Z)
    : list Z :=
  [ DebugUtils.DVLBHeader.MAGIC_WORD; 1; 40;
    DebugUtils.DVLPHeader.MAGIC_WORD; 0; 92; binary_size;
    92 + 4 * binary_size; swizzle_size; 0;
    DebugUtils.DVLEHeader.MAGIC_WORD; 0; main_offset; 0; 0; 0;
    0; 0; 0; 0; 64 + 4 * binary_size + 8 * swizzle_size; table_size;
    0; 0; 0; 0 ].

(** * Properties *)

Section TileEnumeration.
Import DebugUtils Tiling.

(** A property of the eight coordinates of a tile is settled by checking
    each of them. *)
Lemma tile_coordinate_cases (P : Z → Prop) :
  Forall P (seqZ 0 8) → ∀ x, 0 ≤ x < 8 → P x.
Proof.
  intros HP x Hx. rewrite Forall_forall in HP.
  apply HP, elem_of_seqZ. lia.
Qed.

Lemma tile_texel_cases (P : Z → Z → Prop) :
  Forall (fun x => Forall (P x) (seqZ 0 8)) (seqZ 0 8) →
  ∀ x y, 0 ≤ x < 8 → 0 ≤ y < 8 → P x y.
Proof.
  intros HP x y Hx Hy.
  apply (tile_coordinate_cases (P x)); [|done].
  revert x Hx. by apply tile_coordinate_cases.
Qed.

Lemma tile_index_cases (P : Z → Prop) :
  Forall P (seqZ 0 64) → ∀ i, 0 ≤ i < 64 → P i.
Proof.
  intros HP i Hi. rewrite Forall_forall in HP.
  apply HP, elem_of_seqZ. lia.
Qed.

End TileEnumeration.

Example texel_index_3_5 : DebugUtils.texel_index_within_tile 3 5 = 39.
Proof. reflexivity. Qed.

Section TiledIndex.
Import DebugUtils Tiling.

(** Unrolling the three iterations of the loop. *)
Lemma texel_index_unrolled x y :
  texel_index_within_tile x y =
    sub_tile_step x y (sub_tile_step x y (sub_tile_step x y 0 0) 1) 2.
Proof. reflexivity. Qed.

Lemma texel_index_zorder x y :
  texel_index_within_tile x y = zorder_interleave x y.
Proof.
  rewrite texel_index_unrolled.
  unfold sub_tile_step, zorder_interleave, level_term. lia.
Qed.

(** Only the low three bits of a coordinate reach the index. *)
Lemma land_low_bits v m :
  Z.land m 7 = m → Z.land (v mod 8) m = Z.land v m.
Proof.
  intros Hm. change 8 with (2 ^ 3). rewrite <- Z.land_ones by lia.
  change (Z.ones 3) with 7.
  by rewrite <- Z.land_assoc, (Z.land_comm 7 m), Hm.
Qed.

Lemma texel_index_mod x y :
  texel_index_within_tile (x mod 8) (y mod 8) = texel_index_within_tile x y.
Proof.
  rewrite !texel_index_unrolled. unfold sub_tile_step.
  by rewrite !land_low_bits.
Qed.

Lemma texel_index_morton x y :
  0 ≤ x < 8 → 0 ≤ y < 8 → texel_index_within_tile x y = morton x y.
Proof.
  revert x y. apply tile_texel_cases.
  repeat (apply Forall_cons; split); try apply Forall_nil; reflexivity.
Qed.

End TiledIndex.

Section TileLayout.
Import DebugUtils Tiling.

Ltac check_tile := 
  repeat (apply Forall_cons; split); try apply Forall_nil; vm_compute; done.

Lemma texel_index_documented x y :
  0 ≤ x < 8 → 0 ≤ y < 8 →
  documented_index x y = Some (texel_index_within_tile x y).
Proof. revert x y. apply tile_texel_cases. check_tile. Qed.

(** Inside its 2x2 quad a texel sits at the quad's first index plus
    [0, 1, 2, 3] for lower left, lower right, upper left, upper right;
    the first index of a quad is a multiple of four. *)
Lemma texel_index_in_quad x y :
  0 ≤ x < 8 → 0 ≤ y < 8 →
  texel_index_within_tile x y =
    texel_index_within_tile (2 * (x / 2)) (2 * (y / 2)) + x mod 2 + 2 * (y mod 2)
  ∧ texel_index_within_tile (2 * (x / 2)) (2 * (y / 2)) mod 4 = 0.
Proof. revert x y. apply tile_texel_cases. check_tile. Qed.

Lemma texel_index_range x y :
  0 ≤ texel_index_within_tile x y < 64.
Proof.
  rewrite <- texel_index_mod.
  assert (0 ≤ x mod 8 < 8) as Hx by (apply Z.mod_pos_bound; lia).
  assert (0 ≤ y mod 8 < 8) as Hy by (apply Z.mod_pos_bound; lia).
  revert Hx Hy. generalize (x mod 8) (y mod 8). clear x y.
  intros x y Hx Hy. revert x y Hx Hy. apply tile_texel_cases. check_tile.
Qed.

Lemma texel_of_index_of_texel x y :
  0 ≤ x < 8 → 0 ≤ y < 8 →
  texel_of_index (texel_index_within_tile x y) = (x, y).
Proof. revert x y. apply tile_texel_cases. check_tile. Qed.

Lemma texel_index_of_texel_of_index i :
  0 ≤ i < 64 →
  0 ≤ (texel_of_index i).1 < 8 ∧ 0 ≤ (texel_of_index i).2 < 8
  ∧ texel_index_within_tile (texel_of_index i).1 (texel_of_index i).2 = i.
Proof. revert i. apply tile_index_cases. check_tile. Qed.

Lemma coarse_split v :
  0 ≤ v → v = (v ÷ 8) * 8 + v mod 8.
Proof.
  intros Hv. rewrite Z.quot_div_nonneg by lia.
  pose proof (Z.div_mod v 8). lia.
Qed.

Lemma texel_of_tile_address x y :
  0 ≤ x → 0 ≤ y → texel_of_address (tile_address x y) = (x, y).
Proof.
  intros Hx Hy. unfold texel_of_address, tile_address, coarse_x, coarse_y,
    block_width, block_height.
  rewrite <- texel_index_mod, texel_of_index_of_texel
    by (apply Z.mod_pos_bound; lia).
  simpl. f_equal; symmetry; by apply coarse_split.
Qed.

(** The byte offset [DumpTexture] forms for [source_ptr], for an image
    whose width is a whole number of tiles and whose rows up to the tile
    of [y] stay inside the 32-bit offset arithmetic: three bytes per
    texel, tiles numbered row by row, 64 texels each. *)
Lemma source_offset_tiles width x y :
  0 ≤ x < width → 0 ≤ y → width mod 8 = 0 →
  int_addressable width →
  (coarse_y y + 8) * (width * 3) ≤ 2 ^ 32 →
  source_offset width x y
  = 3 * (64 * (x / 8 + y / 8 * (width / 8)) + texel_index_within_tile x y).
Proof.
  intros Hx Hy Hw Hint Hfit.
  unfold source_offset, row_stride, coarse_x, coarse_y, int_addressable,
    block_width, block_height, Int.to_u32, Int.to_int, Int.u32_mod in *.
  rewrite !Z.quot_div_nonneg in * by lia.
  assert (0 ≤ y / 8) by (apply Z.div_pos; lia).
  assert (0 ≤ x / 8) by (apply Z.div_pos; lia).
  assert (width = 8 * (width / 8)) as Hwidth
    by (Z.to_euclidean_division_equations; lia).
  assert (x / 8 * 8 + 8 ≤ width) as Htile
    by (Z.to_euclidean_division_equations; lia).
  rewrite (Z.mod_small (x / 8 * 8 * 8 * 3)) by lia.
  rewrite decide_True by lia.
  rewrite (Z.mod_small (width * 3)) by nia.
  rewrite Z.mod_small by nia.
  rewrite Hwidth at 1. lia.
Qed.

(** On such an image distinct texels are read from distinct offsets. *)
Lemma source_offset_injective width x y x' y' :
  0 ≤ x < width → 0 ≤ y → 0 ≤ x' < width → 0 ≤ y' →
  width mod 8 = 0 →
  int_addressable width →
  (coarse_y y + 8) * (width * 3) ≤ 2 ^ 32 →
  (coarse_y y' + 8) * (width * 3) ≤ 2 ^ 32 →
  source_offset width x y = source_offset width x' y' →
  (x, y) = (x', y').
Proof.
  intros Hx Hy Hx' Hy' Hw Hint Hfit Hfit'.
  rewrite !source_offset_tiles by done. intros Heq.
  pose proof (texel_index_range x y) as Hi.
  pose proof (texel_index_range x' y') as Hi'.
  assert (0 < width / 8) as Htw
    by (Z.to_euclidean_division_equations; lia).
  assert (0 ≤ x / 8 < width / 8) as Hc
    by (Z.to_euclidean_division_equations; lia).
  assert (0 ≤ x' / 8 < width / 8) as Hc'
    by (Z.to_euclidean_division_equations; lia).
  assert (texel_index_within_tile x y = texel_index_within_tile x' y'
          ∧ x / 8 + y / 8 * (width / 8) = x' / 8 + y' / 8 * (width / 8))
    as [Hindex Htile] by lia.
  assert (y / 8 = y' / 8) as Hrow.
  { apply (f_equal (fun t => t / (width / 8))) in Htile.
    by rewrite !Z.div_add, !(Z.div_small (_ / 8)) in Htile by lia. }
  assert (x / 8 = x' / 8) as Hcol by (rewrite Hrow in Htile; lia).
  rewrite <- (texel_index_mod x y), <- (texel_index_mod x' y') in Hindex.
  apply (f_equal texel_of_index) in Hindex.
  rewrite !texel_of_index_of_texel in Hindex by (apply Z.mod_pos_bound; lia).
  injection Hindex as Hxm Hym.
  pose proof (Z.div_mod x 8). pose proof (Z.div_mod x' 8).
  pose proof (Z.div_mod y 8). pose proof (Z.div_mod y' 8).
  f_equal; lia.
Qed.

(** On an image of whole tiles that fits the 32-bit offsets the [u32]
    product [coarse_y * row_stride] does not wrap in any row. *)
Lemma tiled_image_row_fits width height y :
  tiled_image width height → 0 ≤ y < height →
  (coarse_y y + 8) * (width * 3) ≤ 2 ^ 32.
Proof.
  intros (Hw & Hh & Hwm & Hhm & Hfit) Hy.
  unfold coarse_y, block_height. rewrite Z.quot_div_nonneg by lia.
  assert (y / 8 * 8 + 8 ≤ height) by (Z.to_euclidean_division_equations; lia).
  etrans; [|exact Hfit].
  replace (width * height * 3) with (height * (width * 3)) by lia.
  apply Z.mul_le_mono_nonneg_r; lia.
Qed.


End TileLayout.

(** C1.  Inside a tile ([0 <= x, y < 8]) the index computed by the
    three-iteration loop of [DumpTexture] is the hierarchical Z-order
    interleave, the sum over the levels 0, 1, 2 of
    [((x & (1 << level)) << level) + 2 * ((y & (1 << level)) << level)];
    it is the entry the tile picture in the source gives for [(x, y)];
    the bottom row reads 0,1,4,5,16,17,20,21; and the texels come in 2x2
    quads of four consecutive indices, the quads that start at 0, 8 and 16
    reading 0,1,2,3, 8,9,10,11 and 16,17,18,19. *)
Theorem texel_index_is_zorder_interleave (x y : Z) :
  0 ≤ x < 8 → 0 ≤ y < 8 →
  DebugUtils.texel_index_within_tile x y = Tiling.zorder_interleave x y
  ∧ DebugUtils.texel_index_within_tile x y = Tiling.morton x y
  ∧ Tiling.documented_index x y = Some (DebugUtils.texel_index_within_tile x y)
  ∧ Tiling.tile_row 0 = [0; 1; 4; 5; 16; 17; 20; 21]
  ∧ (DebugUtils.texel_index_within_tile x y =
       DebugUtils.texel_index_within_tile (2 * (x / 2)) (2 * (y / 2))
       + x mod 2 + 2 * (y mod 2)
     ∧ DebugUtils.texel_index_within_tile (2 * (x / 2)) (2 * (y / 2)) mod 4 = 0)
  ∧ Tiling.quad 0 0 ++ Tiling.quad 0 1 ++ Tiling.quad 2 0
      = [0; 1; 2; 3; 8; 9; 10; 11; 16; 17; 18; 19].
Proof.
  intros Hx Hy. split_and!.
  - apply texel_index_zorder.
  - by apply texel_index_morton.
  - by apply texel_index_documented.
  - reflexivity.
  - by apply texel_index_in_quad.
  - by apply texel_index_in_quad.
  - reflexivity.
Qed.

Lemma texel_index_is_zorder_interleave_witness :
  DebugUtils.texel_index_within_tile 5 2 = 25
  ∧ Tiling.zorder_interleave 5 2 = 25
  ∧ Tiling.documented_index 5 2 = Some 25.
Proof.
  destruct (texel_index_is_zorder_interleave 5 2) as (Hz & _ & Hd & _);
    [lia | lia |].
  split_and!; [reflexivity | | ].
  - rewrite <- Hz. reflexivity.
  - rewrite Hd. reflexivity.
Defined.




Section Tracing.
Import DebugUtils.

(** While tracing is active and a trace is installed, a write appends
    its record at the end of the trace. *)
Lemma OnPicaRegWrite_active id value flag trace :
  flag ≠ 0 →
  OnPicaRegWrite id value {| pica_trace := Some trace; is_pica_tracing := flag |}
  = Some {| pica_trace := Some {| writes := writes trace ++ [(id, value)] |};
            is_pica_tracing := flag |}.
Proof.
  intros Hflag. unfold OnPicaRegWrite. simpl.
  by rewrite !decide_False by done.
Qed.

(** While tracing is inactive a write changes nothing. *)
Lemma OnPicaRegWrite_inactive id value s :
  is_pica_tracing s = 0 → OnPicaRegWrite id value s = Some s.
Proof. intros Hflag. unfold OnPicaRegWrite. by rewrite decide_True. Qed.

Lemma OnPicaRegWrites_active ws flag trace :
  flag ≠ 0 →
  OnPicaRegWrites ws {| pica_trace := Some trace; is_pica_tracing := flag |}
  = Some {| pica_trace := Some {| writes := writes trace ++ ws |};
            is_pica_tracing := flag |}.
Proof.
  intros Hflag. revert trace.
  induction ws as [|[id value] ws IH]; intros trace; simpl.
  - rewrite app_nil_r. by destruct trace.
  - rewrite OnPicaRegWrite_active by done. simpl.
    rewrite IH. simpl. by rewrite <- app_assoc.
Qed.

Lemma OnPicaRegWrites_inactive ws s :
  is_pica_tracing s = 0 → OnPicaRegWrites ws s = Some s.
Proof.
  intros Hflag. induction ws as [|[id value] ws IH]; simpl; [done|].
  by rewrite OnPicaRegWrite_inactive.
Qed.

(** Calls made one after the other keep the tracer well formed. *)
Lemma StartPicaTracing_ok s : tracer_ok s → tracer_ok (StartPicaTracing s).1.
Proof.
  intros Hok. unfold StartPicaTracing. case_decide; simpl; [done|].
  intros _. by eexists.
Qed.

Lemma OnPicaRegWrite_ok id value s :
  tracer_ok s → ∃ s', OnPicaRegWrite id value s = Some s' ∧ tracer_ok s'.
Proof.
  intros Hok. destruct (decide (is_pica_tracing s = 0)) as [H0|Hn].
  - exists s. by rewrite OnPicaRegWrite_inactive.
  - destruct s as [[trace|] flag]; simpl in *.
    + eexists. rewrite OnPicaRegWrite_active by done. split; [done|].
      intros _. by eexists.
    + by destruct (Hok Hn).
Qed.

Lemma FinishPicaTracing_ok s : tracer_ok (FinishPicaTracing s).1.2.
Proof.
  unfold FinishPicaTracing, tracer_ok. case_decide; simpl; [|done].
  intros. congruence.
Qed.

End Tracing.

(** C3.  Starting from an idle tracer, [StartPicaTracing] followed by
    [OnPicaRegWrite] calls with the records [ws] and then
    [FinishPicaTracing] returns a trace whose writes are exactly [ws], in
    call order, with nothing logged; and every [OnPicaRegWrite] made
    after that, while tracing is inactive, leaves the tracer as it is and
    reaches no trace: the write is dropped. *)
Theorem tracing_returns_writes_in_order (s : DebugUtils.Tracer) (ws later : list (Z * Z)) :
  DebugUtils.is_pica_tracing s = 0 →
  ∃ s1 s2 s3,
    DebugUtils.StartPicaTracing s = (s1, [])
    ∧ DebugUtils.OnPicaRegWrites ws s1 = Some s2
    ∧ DebugUtils.FinishPicaTracing s2
        = (Some {| DebugUtils.writes := ws |}, s3, [])
    ∧ DebugUtils.IsPicaTracing s3 = false
    ∧ DebugUtils.pica_trace s3 = None
    ∧ DebugUtils.OnPicaRegWrites later s3 = Some s3.
Proof.
  intros Hidle. unfold DebugUtils.StartPicaTracing.
  rewrite decide_False by (by intros []).
  eexists _, _, _. split; [reflexivity|].
  split; [by apply OnPicaRegWrites_active|].
  split; [reflexivity|]. simpl.
  split_and!; [done..|].
  by apply OnPicaRegWrites_inactive.
Qed.

Lemma tracing_returns_writes_in_order_witness :
  ∃ s1 s2 s3,
    DebugUtils.StartPicaTracing DebugUtils.initial_tracer = (s1, [])
    ∧ DebugUtils.OnPicaRegWrites [(1, 10); (2, 20); (3, 30)] s1 = Some s2
    ∧ DebugUtils.FinishPicaTracing s2
        = (Some {| DebugUtils.writes := [(1, 10); (2, 20); (3, 30)] |}, s3, [])
    ∧ DebugUtils.IsPicaTracing s3 = false
    ∧ DebugUtils.pica_trace s3 = None
    ∧ DebugUtils.OnPicaRegWrites [(4, 40)] s3 = Some s3.
Proof.
  apply (tracing_returns_writes_in_order DebugUtils.initial_tracer
           [(1, 10); (2, 20); (3, 30)] [(4, 40)]).
  reflexivity.
Defined.

(** C5.  Misuse of the tracer is not fatal and changes nothing:
    [StartPicaTracing] while tracing is active logs one error and returns
    with the tracer, its trace buffer included, as it was;
    [FinishPicaTracing] while tracing is inactive logs one error and
    returns the null trace, again with the tracer as it was. *)
Theorem tracing_misuse_is_logged_no_op (s : DebugUtils.Tracer) :
  (DebugUtils.is_pica_tracing s ≠ 0 →
     ∃ entry, DebugUtils.StartPicaTracing s = (s, [entry])
       ∧ log_format entry
         = "StartPicaTracing called even though tracing already running!")
  ∧ (DebugUtils.is_pica_tracing s = 0 →
     ∃ entry, DebugUtils.FinishPicaTracing s = (None, s, [entry])
       ∧ log_format entry
         = "FinishPicaTracing called even though tracing already running!").
Proof.
  split; intros Hflag.
  - unfold DebugUtils.StartPicaTracing. rewrite decide_True by done. by eexists.
  - unfold DebugUtils.FinishPicaTracing. rewrite decide_True by done. by eexists.
Qed.

Lemma tracing_misuse_is_logged_no_op_witness :
  let active :=
    {| DebugUtils.pica_trace := Some {| DebugUtils.writes := [(7, 9)] |};
       DebugUtils.is_pica_tracing := 1 |} in
  (∃ entry, DebugUtils.StartPicaTracing active = (active, [entry]))
  ∧ (∃ entry, DebugUtils.FinishPicaTracing DebugUtils.initial_tracer
                = (None, DebugUtils.initial_tracer, [entry])).
Proof.
  intros active. split.
  - destruct (tracing_misuse_is_logged_no_op active) as [Hstart _].
    destruct Hstart as (entry & Hrun & _); [simpl; lia|]. by exists entry.
  - destruct (tracing_misuse_is_logged_no_op DebugUtils.initial_tracer)
      as [_ Hfinish].
    destruct Hfinish as (entry & Hrun & _); [reflexivity|]. by exists entry.
Defined.

Section Swizzle.
Import Vulkan.

(** Or-ing a value below [2^n] into a value shifted left by [n] adds it. *)
Lemma lor_shiftl_low a b n :
  0 ≤ n → 0 ≤ b < 2 ^ n → Z.lor (Z.shiftl a n) b = a * 2 ^ n + b.
Proof.
  intros Hn Hb. rewrite <- Z.shiftl_mul_pow2 by done.
  rewrite <- Z.add_lor_land.
  enough (Z.land (Z.shiftl a n) b = 0) as -> by lia.
  apply Z.bits_inj'. intros i Hi.
  rewrite Z.land_spec, Z.bits_0.
  destruct (decide (i < n)) as [Hlt|Hge].
  - by rewrite Z.shiftl_spec_low.
  - rewrite <- (Z.mod_small b (2 ^ n)) by done.
    rewrite Z.mod_pow2_bits_high by lia. apply andb_false_r.
Qed.

(** For 8-bit selectors the key is the four selectors written as the four
    bytes of a 32-bit word, [x] the most significant. *)
Lemma EncodeSwizzle_bytes x y z w :
  Int.is_u8 x → Int.is_u8 y → Int.is_u8 z → Int.is_u8 w →
  EncodeSwizzle x y z w = x * 2 ^ 24 + y * 2 ^ 16 + z * 2 ^ 8 + w.
Proof.
  unfold Int.is_u8. intros Hx Hy Hz Hw.
  unfold EncodeSwizzle, Int.to_u32, Int.u32_mod.
  rewrite (Z.mod_small x), (Z.mod_small y), (Z.mod_small z), (Z.mod_small w) by lia.
  rewrite !Z.shiftl_mul_pow2 by lia.
  rewrite !Z.mod_small by lia.
  rewrite <- !Z.shiftl_mul_pow2 by lia.
  replace (Z.lor (Z.shiftl x 24) (Z.shiftl y 16))
    with (Z.shiftl (x * 2 ^ 8 + y) 16).
  2:{ rewrite <- (lor_shiftl_low x y 8) by lia.
      rewrite Z.shiftl_lor, Z.shiftl_shiftl by lia. reflexivity. }
  rewrite <- Z.lor_assoc.
  rewrite (lor_shiftl_low z w 8) by lia.
  rewrite lor_shiftl_low by lia.
  rewrite !Z.shiftl_mul_pow2 by lia. lia.
Qed.

Lemma EncodeSwizzle_injective x y z w x' y' z' w' :
  Int.is_u8 x → Int.is_u8 y → Int.is_u8 z → Int.is_u8 w →
  Int.is_u8 x' → Int.is_u8 y' → Int.is_u8 z' → Int.is_u8 w' →
  EncodeSwizzle x y z w = EncodeSwizzle x' y' z' w' →
  (x, y, z, w) = (x', y', z', w').
Proof.
  intros Hx Hy Hz Hw Hx' Hy' Hz' Hw'.
  rewrite !EncodeSwizzle_bytes by done.
  unfold Int.is_u8 in *. intros Heq.
  assert (x = x' ∧ y = y' ∧ z = z' ∧ w = w') as (-> & -> & -> & ->) by lia.
  done.
Qed.

End Swizzle.

Section ViewCache.
Import Vulkan.

(** A request whose key is not cached creates one image view, caches it
    under the key and returns it. *)
Lemma GetHandle_miss x y z w v device :
  view_cache v !! EncodeSwizzle x y z w = None →
  ∃ image_view,
    GetHandle x y z w v device
      = (image_view,
         set_view_cache (<[EncodeSwizzle x y z w := image_view]> (view_cache v)) v,
         device ++ [image_view])
    ∧ created_as image_view = length device
    ∧ components image_view = (x, y, z, w).
Proof. intros Hmiss. unfold GetHandle. rewrite Hmiss. by eexists. Qed.

(** A request whose key is cached returns the cached view and touches
    neither the view nor the device. *)
Lemma GetHandle_hit x y z w v device image_view :
  view_cache v !! EncodeSwizzle x y z w = Some image_view →
  GetHandle x y z w v device = (image_view, v, device).
Proof. intros Hhit. unfold GetHandle. by rewrite Hhit. Qed.

(** Whatever the outcome, the key is cached afterwards, with the view
    returned, and nothing that was cached is lost or replaced. *)
Lemma GetHandle_cached x y z w v device :
  let '(image_view, v', _) := GetHandle x y z w v device in
  view_cache v' !! EncodeSwizzle x y z w = Some image_view
  ∧ ∀ key cached, view_cache v !! key = Some cached →
      view_cache v' !! key = Some cached.
Proof.
  unfold GetHandle.
  destruct (view_cache v !! EncodeSwizzle x y z w) as [cached|] eqn:Hlook.
  - done.
  - simpl. split; [apply lookup_insert_eq|].
    intros key cached Hkey. rewrite lookup_insert_ne; [done|]. congruence.
Qed.

End ViewCache.

(** C6.  [EncodeSwizzle] packs four 8-bit selectors as the bytes of a
    32-bit key, [x] in bits 24-31 down to [w] in bits 0-7, and on such
    selectors it is injective: two requests meet on a key exactly when
    all four selectors agree.  So a request for selectors not yet cached
    creates one image view and a second request for the same selectors is
    a cache hit that creates nothing; a request for other selectors is
    cached under another key, next to the first, and when it is a miss as
    well its image view is another object. *)
Theorem swizzle_cache_key_is_faithful
    (x y z w x' y' z' w' : Vulkan.SwizzleSource)
    (v : Vulkan.CachedSurfaceView) (device : Vulkan.Device) :
  Int.is_u8 x → Int.is_u8 y → Int.is_u8 z → Int.is_u8 w →
  Int.is_u8 x' → Int.is_u8 y' → Int.is_u8 z' → Int.is_u8 w' →
  Vulkan.view_cache v !! Vulkan.EncodeSwizzle x y z w = None →
  Vulkan.EncodeSwizzle x y z w = x * 2 ^ 24 + y * 2 ^ 16 + z * 2 ^ 8 + w
  ∧ (Vulkan.EncodeSwizzle x y z w = Vulkan.EncodeSwizzle x' y' z' w'
     ↔ (x, y, z, w) = (x', y', z', w'))
  ∧ ∃ first v1,
      Vulkan.GetHandle x y z w v device = (first, v1, device ++ [first])
      ∧ Vulkan.GetHandle x y z w v1 (device ++ [first])
          = (first, v1, device ++ [first])
      ∧ ((x, y, z, w) ≠ (x', y', z', w') →
         ∃ second v2 device2,
           Vulkan.GetHandle x' y' z' w' v1 (device ++ [first])
             = (second, v2, device2)
           ∧ Vulkan.EncodeSwizzle x y z w ≠ Vulkan.EncodeSwizzle x' y' z' w'
           ∧ Vulkan.view_cache v2 !! Vulkan.EncodeSwizzle x y z w = Some first
           ∧ Vulkan.view_cache v2 !! Vulkan.EncodeSwizzle x' y' z' w' = Some second
           ∧ (Vulkan.view_cache v !! Vulkan.EncodeSwizzle x' y' z' w' = None →
              device2 = device ++ [first; second] ∧ first ≠ second)).
Proof.
  intros Hx Hy Hz Hw Hx' Hy' Hz' Hw' Hmiss.
  split; [by apply EncodeSwizzle_bytes|].
  split.
  { split; [by apply EncodeSwizzle_injective|]. by intros [= -> -> -> ->]. }
  destruct (GetHandle_miss x y z w v device Hmiss) as (first & Hfirst & Hid & _).
  eexists first, _. split; [exact Hfirst|].
  split.
  { apply GetHandle_hit. simpl. apply lookup_insert_eq. }
  intros Hne.
  assert (Vulkan.EncodeSwizzle x y z w ≠ Vulkan.EncodeSwizzle x' y' z' w') as Hkeys.
  { intros Heq. by apply Hne, EncodeSwizzle_injective. }
  pose proof (GetHandle_cached x' y' z' w'
    (Vulkan.set_view_cache
       (<[Vulkan.EncodeSwizzle x y z w := first]> (Vulkan.view_cache v)) v)
    (device ++ [first])) as Hcached.
  destruct (Vulkan.GetHandle x' y' z' w' _ _) as [[second v2] device2] eqn:Hsecond.
  destruct Hcached as [Hnew Hkept].
  exists second, v2, device2. split; [done|]. split; [done|].
  split; [apply Hkept; simpl; apply lookup_insert_eq|].
  split; [done|].
  intros Hmiss'.
  destruct (GetHandle_miss x' y' z' w'
    (Vulkan.set_view_cache
       (<[Vulkan.EncodeSwizzle x y z w := first]> (Vulkan.view_cache v)) v)
    (device ++ [first])) as (second' & Hsecond' & Hid' & _).
  { simpl. rewrite lookup_insert_ne by done. exact Hmiss'. }
  rewrite Hsecond' in Hsecond. injection Hsecond as <- <- <-.
  split; [by rewrite <- app_assoc|].
  intros ->. rewrite Hid, length_app in Hid'. simpl in Hid'. lia.
Qed.

Lemma swizzle_cache_key_is_faithful_witness :
  let v := {| Vulkan.surface := 0%nat;
              Vulkan.base_layer := 0; Vulkan.num_layers := 1;
              Vulkan.base_level := 0; Vulkan.num_levels := 1;
              Vulkan.view_cache := ∅ |} in
  Vulkan.EncodeSwizzle 2 3 4 5 = 0x02030405
  ∧ ∃ first v1,
      Vulkan.GetHandle 2 3 4 5 v [] = (first, v1, [first])
      ∧ Vulkan.GetHandle 2 3 4 5 v1 [first] = (first, v1, [first]).
Proof.
  intros v.
  destruct (swizzle_cache_key_is_faithful 2 3 4 5 5 4 3 2 v [])
    as (Hkey & _ & first & v1 & Hfirst & Hagain & _);
    try (unfold Int.is_u8; lia); [reflexivity|].
  split; [reflexivity|]. by exists first, v1.
Defined.

(** C9.  The zero-argument [GetHandle] is the four-argument one at the
    selectors R, G, B, A: on every view and device both give the same
    image view, view state and device, and afterwards the view caches
    that image view under the key of (R, G, B, A). *)
Theorem default_handle_is_rgba_handle
    (R G B A : Vulkan.SwizzleSource)
    (v : Vulkan.CachedSurfaceView) (device : Vulkan.Device) :
  Vulkan.GetHandle0 R G B A v device = Vulkan.GetHandle R G B A v device
  ∧ Vulkan.view_cache (Vulkan.GetHandle0 R G B A v device).1.2
      !! Vulkan.EncodeSwizzle R G B A
    = Some (Vulkan.GetHandle0 R G B A v device).1.1.
Proof.
  split; [reflexivity|].
  unfold Vulkan.GetHandle0.
  pose proof (GetHandle_cached R G B A v device) as Hcached.
  destruct (Vulkan.GetHandle R G B A v device) as [[image_view v'] device'].
  simpl. by destruct Hcached as [Hkey _].
Qed.

Section ModificationTick.
Import Vulkan.

(** Marking through a view reaches the surface the view refers to and no
    other. *)
Lemma MarkAsModified_same v tick surfaces a :
  surface v = a →
  MarkAsModified v tick surfaces !! a
  = SurfaceBase_MarkAsModified true tick <$> surfaces !! a.
Proof. intros <-. apply lookup_alter_eq. Qed.

Lemma MarkAsModified_other v tick surfaces a :
  surface v ≠ a → MarkAsModified v tick surfaces !! a = surfaces !! a.
Proof. intros Hne. by apply lookup_alter_ne. Qed.

Lemma IsSameSurface_eq v rhs : IsSameSurface v rhs = true → surface v = surface rhs.
Proof. unfold IsSameSurface. apply bool_decide_eq_true_1. Qed.

(** The recorded tick of a surface after a run of writes is the latest
    of the tick it had and the ticks written through its views. *)
Lemma MarkAllAsModified_tick marks surfaces a s :
  surfaces !! a = Some s →
  modification_tick <$> MarkAllAsModified marks surfaces !! a
  = Some (latest_tick a marks (modification_tick s)).
Proof.
  revert surfaces s. induction marks as [|[v tick] marks IH]; intros surfaces s Hs.
  - simpl. by rewrite Hs.
  - unfold MarkAllAsModified, latest_tick. simpl.
    destruct (decide (surface v = a)) as [Heq|Hne].
    + apply (IH _ (SurfaceBase_MarkAsModified true tick s)).
      rewrite MarkAsModified_same by done. by rewrite Hs.
    + apply IH. by rewrite MarkAsModified_other.
Qed.

Lemma latest_tick_ge a marks start : start ≤ latest_tick a marks start.
Proof.
  revert start. induction marks as [|[v tick] marks IH]; intros start; simpl.
  - unfold latest_tick. simpl. lia.
  - unfold latest_tick in *. simpl. case_decide; [|apply IH].
    etrans; [|apply IH]. lia.
Qed.

End ModificationTick.

(** C4.  The recorded modification tick of a surface never decreases, and
    two writes with ticks [t1 <= t2], issued through views of the surface
    once it carries no tick later than theirs, leave [max t1 t2] recorded
    in whichever order they are applied. *)
Theorem modification_tick_is_monotonic
    (surfaces : gmap nat Vulkan.CachedSurface)
    (v1 v2 : Vulkan.CachedSurfaceView) (s : Vulkan.CachedSurface) (t1 t2 : Z) :
  Vulkan.IsSameSurface v1 v2 = true →
  surfaces !! Vulkan.surface v1 = Some s →
  Vulkan.modification_tick s ≤ t2 →
  t1 ≤ t2 →
  Vulkan.modification_tick <$>
      Vulkan.MarkAsModified v2 t2 (Vulkan.MarkAsModified v1 t1 surfaces)
        !! Vulkan.surface v1
    = Some (Z.max t1 t2)
  ∧ Vulkan.modification_tick <$>
      Vulkan.MarkAsModified v1 t1 (Vulkan.MarkAsModified v2 t2 surfaces)
        !! Vulkan.surface v1
    = Some (Z.max t1 t2)
  ∧ ∀ v t, Vulkan.IsSameSurface v v1 = true →
      ∃ s', Vulkan.MarkAsModified v t surfaces !! Vulkan.surface v1 = Some s'
        ∧ Vulkan.modification_tick s ≤ Vulkan.modification_tick s'.
Proof.
  intros Hsame Hs Hold Hle. apply IsSameSurface_eq in Hsame.
  split_and!.
  - rewrite !MarkAsModified_same, Hs by done. simpl. f_equal. lia.
  - rewrite !MarkAsModified_same, Hs by done. simpl. f_equal. lia.
  - intros v t Hv. apply IsSameSurface_eq in Hv.
    rewrite MarkAsModified_same, Hs by done. simpl.
    eexists. split; [done|]. simpl. lia.
Qed.

Lemma modification_tick_is_monotonic_witness :
  let s := {| Vulkan.is_modified := false; Vulkan.modification_tick := 0 |} in
  let view range :=
    {| Vulkan.surface := 7%nat;
       Vulkan.base_layer := 0; Vulkan.num_layers := 1;
       Vulkan.base_level := range; Vulkan.num_levels := 1;
       Vulkan.view_cache := ∅ |} in
  Vulkan.modification_tick <$>
      Vulkan.MarkAsModified (view 1) 9 (Vulkan.MarkAsModified (view 0) 4 {[ 7%nat := s ]})
        !! 7%nat
    = Some 9
  ∧ Vulkan.modification_tick <$>
      Vulkan.MarkAsModified (view 0) 4 (Vulkan.MarkAsModified (view 1) 9 {[ 7%nat := s ]})
        !! 7%nat
    = Some 9.
Proof.
  intros s view.
  destruct (modification_tick_is_monotonic {[ 7%nat := s ]} (view 0) (view 1) s 4 9)
    as (Hin & Hout & _); [reflexivity | reflexivity | simpl; lia | lia |].
  split; [exact Hin | exact Hout].
Defined.

Section Headers.
Import DebugUtils.

(** Under [pack(1)] every member is byte aligned, so no member is moved
    and nothing is appended: members follow each other directly. *)
Lemma align_up_1 offset : align_up offset 1 = offset.
Proof. unfold align_up. rewrite Z.div_1_r. lia. Qed.

Lemma alignof_packed t : alignof 1 t = 1.
Proof. by destruct t. Qed.

Lemma members_end_packed members offset :
  members_end 1 offset members = offset + members_size members.
Proof.
  revert offset. induction members as [|m members IH]; intros offset; simpl.
  - lia.
  - rewrite alignof_packed, align_up_1, IH. lia.
Qed.

Lemma struct_align_packed members : struct_align 1 members = 1.
Proof.
  unfold struct_align.
  induction members as [|m members IH]; simpl; [done|].
  rewrite alignof_packed, IH. done.
Qed.

Lemma struct_sizeof_packed members :
  struct_sizeof 1 members = members_size members.
Proof.
  unfold struct_sizeof.
  by rewrite struct_align_packed, align_up_1, members_end_packed.
Qed.

Lemma length_le_bytes n v : length (le_bytes n v) = n.
Proof. revert v. induction n as [|n IH]; intros v; simpl; [done|]. by rewrite IH. Qed.

End Headers.

(** C7.  The three shader-dump headers are tightly packed: [DVLBHeader]
    takes 8 bytes, the magic word at offset 0, whose little-endian bytes
    read "DVLB", and the program count at offset 4; [DVLPHeader] takes 28
    bytes with magic "DVLP", the binary offset and size in words at
    offsets 8 and 12 and the swizzle pattern offset and entry count at 16
    and 20; [DVLEHeader] takes 64 bytes with magic "DVLE", the shader type
    byte at offset 6, the main and end offsets at 8 and 12 and the five
    offset and size pairs from offset 24 on.  In each header every member
    starts where the one before it ends and the size is the sum of the
    member sizes. *)
Theorem shader_headers_are_packed :
  (DebugUtils.struct_sizeof DebugUtils.pragma_pack DebugUtils.DVLBHeader.members = 8
   ∧ DebugUtils.struct_sizeof DebugUtils.pragma_pack DebugUtils.DVLPHeader.members = 28
   ∧ DebugUtils.struct_sizeof DebugUtils.pragma_pack DebugUtils.DVLEHeader.members = 64)
  ∧ (∀ members,
       DebugUtils.struct_sizeof DebugUtils.pragma_pack members
       = DebugUtils.members_size members)
  ∧ (zip (DebugUtils.member_name <$> DebugUtils.DVLBHeader.members)
         (DebugUtils.member_offsets DebugUtils.pragma_pack 0 DebugUtils.DVLBHeader.members)
     = [("magic_word", 0); ("num_programs", 4)])
  ∧ (zip (DebugUtils.member_name <$> DebugUtils.DVLPHeader.members)
         (DebugUtils.member_offsets DebugUtils.pragma_pack 0 DebugUtils.DVLPHeader.members)
     = [("magic_word", 0); ("version", 4); ("binary_offset", 8);
        ("binary_size_words", 12); ("swizzle_patterns_offset", 16);
        ("swizzle_patterns_num_entries", 20); ("unk2", 24)])
  ∧ (zip (DebugUtils.member_name <$> DebugUtils.DVLEHeader.members)
         (DebugUtils.member_offsets DebugUtils.pragma_pack 0 DebugUtils.DVLEHeader.members)
     = [("magic_word", 0); ("pad1", 4); ("type", 6); ("pad2", 7);
        ("main_offset_words", 8); ("endmain_offset_words", 12);
        ("pad3", 16); ("pad4", 20);
        ("constant_table_offset", 24); ("constant_table_size", 28);
        ("label_table_offset", 32); ("label_table_size", 36);
        ("output_register_table_offset", 40); ("output_register_table_size", 44);
        ("uniform_table_offset", 48); ("uniform_table_size", 52);
        ("symbol_table_offset", 56); ("symbol_table_size", 60)])
  ∧ (DebugUtils.le_bytes 4 DebugUtils.DVLBHeader.MAGIC_WORD = DebugUtils.ascii_codes "DVLB"
     ∧ DebugUtils.le_bytes 4 DebugUtils.DVLPHeader.MAGIC_WORD = DebugUtils.ascii_codes "DVLP"
     ∧ DebugUtils.le_bytes 4 DebugUtils.DVLEHeader.MAGIC_WORD = DebugUtils.ascii_codes "DVLE")
  ∧ (∀ h, length (DebugUtils.DVLBHeader.bytes h) = 8%nat
          ∧ DebugUtils.DVLBHeader.bytes h
            = DebugUtils.le_bytes 4 (DebugUtils.DVLBHeader.magic_word h)
              ++ DebugUtils.le_bytes 4 (DebugUtils.DVLBHeader.num_programs h))
  ∧ (∀ h, length (DebugUtils.DVLPHeader.bytes h) = 28%nat
          ∧ DebugUtils.DVLPHeader.bytes h
            = (v ← DebugUtils.DVLPHeader.values h; DebugUtils.le_bytes 4 v))
  ∧ (∀ h, length (DebugUtils.DVLEHeader.bytes h) = 64%nat
          ∧ take 8 (DebugUtils.DVLEHeader.bytes h)
            = DebugUtils.le_bytes 4 (DebugUtils.DVLEHeader.magic_word h)
              ++ DebugUtils.le_bytes 2 (DebugUtils.DVLEHeader.pad1 h)
              ++ DebugUtils.le_bytes 1 (DebugUtils.DVLEHeader.type h)
              ++ DebugUtils.le_bytes 1 (DebugUtils.DVLEHeader.pad2 h)
          ∧ drop 8 (DebugUtils.DVLEHeader.bytes h)
            = (v ← drop 4 (DebugUtils.DVLEHeader.values h); DebugUtils.le_bytes 4 v)).
Proof.
  split_and!; try reflexivity.
  - apply struct_sizeof_packed.
  - by intros [].
  - by intros [].
  - by intros [].
Qed.

Section Dumps.
Import DebugUtils.

(** Nothing that follows a [return] statement runs. *)
Lemma return_first (rest : Block unit) w :
  (return_ ;; rest) w = (Return, w).
Proof. reflexivity. Qed.

(** The statements after the [return] of [DumpShader] are not without
    effect of their own: run by themselves they write a file. *)
Lemma write_file_effect name content w :
  files (call (write_file name content) w) !! name = Some content.
Proof. unfold call, write_file, modify. simpl. apply lookup_insert_eq. Qed.

End Dumps.

(** C8.  The dumps are disabled: for all arguments and in every state of
    the files, dump counters and log, [DumpShader] and [DumpTexture]
    return at their first statement, whether or not the build has PNG
    support, and leave that state exactly as it was. *)
Theorem dumps_are_disabled
    (semantic_value : DebugUtils.OutputAttributes.Semantic → Z)
    (dbg_assert_msg : string → list LogEntry)
    (binary_data : list Z) (binary_size : Z)
    (swizzle_data : list Z) (swizzle_size main_offset : Z)
    (output_attributes : list DebugUtils.OutputAttributes.t)
    (HAVE_PNG : bool) (png_write : Z → Z → list Z → list Z + string)
    (texture_config : DebugUtils.TextureConfig) (data : option (list Z))
    (w : DebugUtils.World) :
  DebugUtils.DumpShader semantic_value dbg_assert_msg binary_data binary_size
      swizzle_data swizzle_size main_offset output_attributes w
    = (DebugUtils.Return, w)
  ∧ DebugUtils.DumpTexture HAVE_PNG png_write texture_config data w
    = (DebugUtils.Return, w)
  ∧ DebugUtils.call
      (DebugUtils.DumpShader semantic_value dbg_assert_msg binary_data binary_size
         swizzle_data swizzle_size main_offset output_attributes) w = w
  ∧ DebugUtils.call
      (DebugUtils.DumpTexture HAVE_PNG png_write texture_config data) w = w.
Proof.
  assert (DebugUtils.DumpShader semantic_value dbg_assert_msg binary_data binary_size
            swizzle_data swizzle_size main_offset output_attributes w
          = (DebugUtils.Return, w)) as Hshader.
  { unfold DebugUtils.DumpShader. apply return_first. }
  assert (DebugUtils.DumpTexture HAVE_PNG png_write texture_config data w
          = (DebugUtils.Return, w)) as Htexture.
  { unfold DebugUtils.DumpTexture. apply return_first. }
  unfold DebugUtils.call. rewrite Hshader, Htexture. done.
Qed.

Section GeometryDumper.
Import DebugUtils Triangles.
Context {float : Type}.
Implicit Types (g : GeometryDumper float) (p : array3 float).

Ltac div_lia := Z.to_euclidean_division_equations; lia.

Lemma to_int_small z : 0 ≤ z < 2 ^ 31 → Int.to_int z = z.
Proof.
  intros Hz. unfold Int.to_int, Int.u32_mod.
  rewrite Z.mod_small by lia. by rewrite decide_True by lia.
Qed.

Lemma triangles_succ count :
  0 ≤ count → triangles (count + 1) = triangles count ++ [triangle count].
Proof.
  intros Hcount. unfold triangles.
  rewrite seqZ_app by lia. by rewrite fmap_app.
Qed.

(** What a call does, wrap-around included: the vertex is appended, and a
    face is appended when the vertex count, read as an [int], is a
    multiple of three. *)
Lemma AddVertex_list p topology g :
  is_list topology →
  let num_vertices := Int.to_int (Z.of_nat (length (vertices g)) + 1) in
  AddVertex p topology g
  = Returned
      {| vertices := vertices g ++ [ {| pos := p |} ];
         faces :=
           if decide (0 = Z.rem num_vertices 3) then
             faces g ++
               [ {| index := Array3 (Int.to_int (num_vertices - 3))
                                    (Int.to_int (num_vertices - 2))
                                    (Int.to_int (num_vertices - 1)) |} ]
           else faces g |}.
Proof.
  intros Hlist. unfold AddVertex.
  rewrite length_app, Nat2Z.inj_add. simpl length.
  change (Z.of_nat 1) with 1. destruct p as [p0 p1 p2]. simpl.
  destruct Hlist as [-> | ->]; by case_decide.
Qed.

(** One call while the vertex count fits an [int]. *)
Lemma AddVertex_step p topology g n :
  is_list topology →
  Z.of_nat (length (vertices g)) = n →
  n + 1 < 2 ^ 31 →
  faces g = triangles (n / 3) →
  ∃ g', AddVertex p topology g = Returned g'
    ∧ vertices g' = vertices g ++ [ {| pos := p |} ]
    ∧ faces g' = triangles ((n + 1) / 3)
    ∧ faces g' =
        if decide ((n + 1) mod 3 = 0) then faces g ++ [triangle (n / 3)]
        else faces g.
Proof.
  intros Hlist Hn Hfit Hfaces.
  rewrite (AddVertex_list p topology g Hlist). cbv zeta.
  rewrite Hn. rewrite (to_int_small (n + 1)) by lia.
  rewrite Z.rem_mod_nonneg by lia.
  eexists. split; [reflexivity|]. simpl. split; [done|].
  destruct (decide (0 = (n + 1) mod 3)) as [Hmul|Hnot].
  - rewrite decide_True by done.
    assert ((n + 1) / 3 = n / 3 + 1) as -> by div_lia.
    rewrite triangles_succ by div_lia.
    rewrite !to_int_small by div_lia.
    assert (triangle (n / 3)
            = {| index := Array3 (n + 1 - 3) (n + 1 - 2) (n + 1 - 1) |}) as <-.
    { unfold triangle. do 2 f_equal; div_lia. }
    by rewrite Hfaces.
  - rewrite decide_False by done.
    assert ((n + 1) / 3 = n / 3) as -> by div_lia.
    done.
Qed.

Lemma AddVertices_app calls1 calls2 g :
  AddVertices (calls1 ++ calls2) g =
    match AddVertices calls1 g with
    | Returned g' => AddVertices calls2 g'
    | Exited status logged => Exited status logged
    end.
Proof.
  revert g. induction calls1 as [|[p topology] calls1 IH]; intros g; simpl; [done|].
  destruct (AddVertex p topology g); [apply IH | done].
Qed.

(** A run of calls while the vertex count fits an [int]. *)
Lemma AddVertices_run (calls : list (array3 float * TriangleTopology.t)) g n :
  Forall (fun c => is_list c.2) calls →
  Z.of_nat (length (vertices g)) = n →
  n + Z.of_nat (length calls) < 2 ^ 31 →
  faces g = triangles (n / 3) →
  ∃ g', AddVertices calls g = Returned g'
    ∧ vertices g' = vertices g ++ ((fun c => {| pos := c.1 |}) <$> calls)
    ∧ faces g' = triangles ((n + Z.of_nat (length calls)) / 3).
Proof.
  intros Hlists. revert g n.
  induction Hlists as [|[p topology] calls Hlist Hlists IH];
    intros g n Hn Hfit Hfaces.
  - exists g. simpl. rewrite app_nil_r, Z.add_0_r. done.
  - simpl in Hfit, Hlist.
    destruct (AddVertex_step p topology g n) as (g1 & Hcall & Hv & Hf & _);
      [done | done | lia | done |].
    destruct (IH g1 (n + 1)) as (g' & Hrun & Hv' & Hf').
    { rewrite Hv, length_app. simpl. lia. }
    { lia. }
    { done. }
    exists g'. simpl. rewrite Hcall. split; [done|].
    split.
    + rewrite Hv', Hv, <- app_assoc. done.
    + rewrite Hf'. f_equal. f_equal. lia.
Qed.

End GeometryDumper.

Section GeometryDumperCount.
Import DebugUtils Triangles.
Context {float : Type}.

Lemma length_triangles count : 0 ≤ count → Z.of_nat (length (triangles count)) = count.
Proof. intros Hcount. unfold triangles. rewrite length_fmap, length_seqZ. lia. Qed.

Lemma lookup_triangles count k :
  0 ≤ k < count → triangles count !! Z.to_nat k = Some (triangle k).
Proof.
  intros Hk. unfold triangles.
  rewrite list_lookup_fmap, lookup_seqZ_lt by lia.
  simpl. do 2 f_equal. lia.
Qed.

(** Past [INT_MAX] the vertex count read as an [int] is negative: the
    two calls that bring the count to 2^31 and 2^31 + 1 append no face,
    although 2^31 + 1 is a multiple of three. *)
Lemma AddVertices_past_int_max (N : nat) (c : array3 float * TriangleTopology.t) :
  is_list c.2 →
  Z.of_nat N = 2147483647 →
  ∃ g, AddVertices (replicate N c ++ [c; c]) fresh_dumper = Returned g
    ∧ Z.of_nat (length (vertices g)) = 2147483649
    ∧ Z.of_nat (length (faces g)) = 715827882.
Proof.
  intros Hlist HN.
  destruct (AddVertices_run (replicate N c) (@fresh_dumper float) 0)
    as (g1 & Hrun & Hv1 & Hf1).
  { by apply Forall_replicate. }
  { done. }
  { rewrite length_replicate, HN. done. }
  { done. }
  rewrite length_replicate, HN in Hf1.
  change ((0 + 2147483647) / 3) with 715827882 in Hf1.
  assert (Z.of_nat (length (vertices g1)) = 2147483647) as Hlen1.
  { rewrite Hv1. simpl. by rewrite length_fmap, length_replicate. }
  rewrite AddVertices_app, Hrun.
  destruct c as [p topology]. simpl in Hlist.
  cbn [AddVertices].
  rewrite (AddVertex_list p topology g1 Hlist). cbv zeta.
  rewrite Hlen1.
  change (Int.to_int (2147483647 + 1)) with (-2147483648).
  change (Z.rem (-2147483648) 3) with (-2).
  rewrite decide_False by lia.
  rewrite (AddVertex_list p topology _ Hlist). cbv zeta.
  cbn [vertices faces].
  rewrite length_app, Nat2Z.inj_add, Hlen1.
  change (Z.of_nat (length [ {| pos := p |} ])) with 1.
  change (Int.to_int (2147483647 + 1 + 1)) with (-2147483647).
  change (Z.rem (-2147483647) 3) with (-1).
  rewrite decide_False by lia.
  eexists. split; [reflexivity|]. cbn [vertices faces].
  split.
  - rewrite !length_app, !Nat2Z.inj_add, Hlen1. done.
  - rewrite Hf1. by apply length_triangles.
Qed.

End GeometryDumperCount.

(** C10, as the code has it.  For every sequence of [n] [AddVertex]
    calls with topology List or ListIndexed on a fresh [GeometryDumper],
    with [n] at most [INT_MAX = 2^31 - 1] (the count is read as an [int]),
    all calls return, the vertex list holds the [n] vertices in call
    order, and the face list has exactly [n / 3] entries, the [k]-th
    holding the vertex indices [3k, 3k+1, 3k+2]; a further call, while
    [n + 1] still fits, appends a face exactly when [n + 1] is a multiple
    of three. *)
Theorem add_vertex_builds_triangle_list {float : Type}
    (calls : list (DebugUtils.array3 float * DebugUtils.TriangleTopology.t)) :
  Forall (fun c => Triangles.is_list c.2) calls →
  Z.of_nat (length calls) ≤ 2 ^ 31 - 1 →
  ∃ g, DebugUtils.AddVertices calls DebugUtils.fresh_dumper = DebugUtils.Returned g
    ∧ length (DebugUtils.vertices g) = length calls
    ∧ DebugUtils.vertices g = (fun c => {| DebugUtils.pos := c.1 |}) <$> calls
    ∧ Z.of_nat (length (DebugUtils.faces g)) = Z.of_nat (length calls) / 3
    ∧ (∀ k, 0 ≤ k < Z.of_nat (length calls) / 3 →
         DebugUtils.faces g !! Z.to_nat k = Some (Triangles.triangle k))
    ∧ (∀ p topology,
         Triangles.is_list topology →
         Z.of_nat (length calls) + 1 ≤ 2 ^ 31 - 1 →
         ∃ g', DebugUtils.AddVertex p topology g = DebugUtils.Returned g'
           ∧ DebugUtils.faces g' =
               if decide ((Z.of_nat (length calls) + 1) mod 3 = 0)
               then DebugUtils.faces g
                      ++ [Triangles.triangle (Z.of_nat (length calls) / 3)]
               else DebugUtils.faces g).
Proof.
  intros Hlists Hfit.
  destruct (AddVertices_run calls (@DebugUtils.fresh_dumper float) 0)
    as (g & Hrun & Hv & Hf); [done | done | lia | done |].
  simpl in Hv. rewrite Z.add_0_l in Hf.
  assert (0 ≤ Z.of_nat (length calls) / 3) as Hcount
    by (apply Z.div_pos; lia).
  exists g. split; [done|].
  split; [by rewrite Hv, length_fmap|].
  split; [done|].
  split; [rewrite Hf; by apply length_triangles|].
  split; [intros k Hk; rewrite Hf; by apply lookup_triangles|].
  intros p topology Hlist Hfit'.
  destruct (AddVertex_step p topology g (Z.of_nat (length calls)))
    as (g' & Hcall & _ & _ & Hstep); [done | | lia | done |].
  { by rewrite Hv, length_fmap. }
  by exists g'.
Qed.

Lemma add_vertex_builds_triangle_list_witness :
  let p : DebugUtils.array3 Z := DebugUtils.Array3 1 2 3 in
  let calls :=
    [ (p, DebugUtils.TriangleTopology.List);
      (p, DebugUtils.TriangleTopology.ListIndexed);
      (p, DebugUtils.TriangleTopology.List);
      (p, DebugUtils.TriangleTopology.List) ] in
  ∃ g, DebugUtils.AddVertices calls DebugUtils.fresh_dumper = DebugUtils.Returned g
    ∧ length (DebugUtils.vertices g) = 4%nat
    ∧ DebugUtils.faces g = [ Triangles.triangle 0 ].
Proof.
  intros p calls.
  destruct (add_vertex_builds_triangle_list calls)
    as (g & Hrun & Hlen & _ & _ & _ & _).
  - unfold calls.
    repeat apply Forall_cons_2; try apply Forall_nil_2;
      first [by left | by right].
  - simpl. lia.
  - exists g. split; [exact Hrun|]. split; [exact Hlen|].
    vm_compute in Hrun. by injection Hrun as <-.
Defined.

(** C10 as stated, for every [n], fails past [INT_MAX]: after
    [2^31 + 1] calls with topology List the dumper holds [2^31 + 1]
    vertices and 715827882 faces, one fewer than
    [floor ((2^31 + 1) / 3) = 715827883]. *)
Lemma add_vertex_count_wraps_past_int_max :
  let c := (DebugUtils.Array3 0 0 0, DebugUtils.TriangleTopology.List) in
  let calls := replicate (Z.to_nat 2147483647) c ++ [c; c] in
  Z.of_nat (length calls) = 2147483649
  ∧ Z.of_nat (length calls) / 3 = 715827883
  ∧ ∃ g, DebugUtils.AddVertices calls DebugUtils.fresh_dumper = DebugUtils.Returned g
      ∧ Z.of_nat (length (DebugUtils.vertices g)) = 2147483649
      ∧ Z.of_nat (length (DebugUtils.faces g)) = 715827882.
Proof.
  intros c calls.
  assert (Z.of_nat (Z.to_nat 2147483647) = 2147483647) as HN
    by (apply Z2Nat.id; lia).
  assert (Z.of_nat (length calls) = 2147483649) as Hlen.
  { unfold calls. rewrite length_app, length_replicate, Nat2Z.inj_add, HN. done. }
  split; [exact Hlen|]. split; [by rewrite Hlen|].
  apply AddVertices_past_int_max; [by left | exact HN].
Qed.

(** * Further properties of the de-tiling loops *)

Section Detiling.
Import DebugUtils Tiling.

(** The tile number of a texel, tiles counted row by row. *)
Lemma tile_number_range width height x y :
  tiled_image width height → 0 ≤ x < width → 0 ≤ y < height →
  0 ≤ x / 8 + y / 8 * (width / 8)
  ∧ 64 * (x / 8 + y / 8 * (width / 8)) + 64 ≤ width * height.
Proof.
  intros (Hw & Hh & Hwm & Hhm & Hfit) Hx Hy.
  assert (width = 8 * (width / 8)) as Hwidth
    by (Z.to_euclidean_division_equations; lia).
  assert (height = 8 * (height / 8)) as Hheight
    by (Z.to_euclidean_division_equations; lia).
  assert (0 ≤ x / 8 < width / 8) as Ha
    by (Z.to_euclidean_division_equations; lia).
  assert (0 ≤ y / 8 < height / 8) as Hb
    by (Z.to_euclidean_division_equations; lia).
  revert Ha Hb. generalize (x / 8) (y / 8). intros a b Ha Hb.
  rewrite Hwidth at 3. rewrite Hheight at 1.
  revert Ha Hb. generalize (width / 8) (height / 8). intros tw th Ha Hb.
  split; [nia|].
  assert ((b + 1) * tw ≤ th * tw) by (apply Z.mul_le_mono_nonneg_r; lia).
  lia.
Qed.

Lemma source_offset_slot width height x y :
  tiled_image width height → int_addressable width →
  0 ≤ x < width → 0 ≤ y < height →
  ∃ q, 0 ≤ q < width * height ∧ source_offset width x y = 3 * q.
Proof.
  intros Himage Hint Hx Hy.
  pose proof (tile_number_range width height x y Himage Hx Hy) as [Hlo Hhi].
  pose proof (texel_index_range x y) as Hi.
  eexists. split; [|apply source_offset_tiles; try lia; try done].
  - lia.
  - by destruct Himage as (_ & _ & ? & _).
  - by eapply tiled_image_row_fits.
Qed.

Lemma source_offset_covers width height q :
  tiled_image width height → int_addressable width →
  0 ≤ q < width * height →
  ∃ x y, 0 ≤ x < width ∧ 0 ≤ y < height ∧ source_offset width x y = 3 * q.
Proof.
  intros Himage Hint Hq.
  pose proof Himage as (Hw & Hh & Hwm & Hhm & Hfit).
  assert (0 < width) as Hwpos by nia.
  assert (width = 8 * (width / 8)) as Hwidth
    by (Z.to_euclidean_division_equations; lia).
  assert (height = 8 * (height / 8)) as Hheight
    by (Z.to_euclidean_division_equations; lia).
  assert (0 < width / 8) as Htw by lia.
  set (tile := q / 64). set (i := q mod 64).
  assert (0 ≤ i < 64) as Hi by (apply Z.mod_pos_bound; lia).
  assert (q = 64 * tile + i) as Hsplit by (apply Z.div_mod; lia).
  destruct (texel_index_of_texel_of_index i Hi) as (Hdx & Hdy & Hback).
  set (dx := (texel_of_index i).1) in *. set (dy := (texel_of_index i).2) in *.
  set (tx := tile mod (width / 8)). set (ty := tile / (width / 8)).
  assert (0 ≤ tx < width / 8) as Htx by (apply Z.mod_pos_bound; lia).
  assert (tile = (width / 8) * ty + tx) as Htile by (apply Z.div_mod; lia).
  assert (0 ≤ tile) as Htile0 by (apply Z.div_pos; lia).
  assert (0 ≤ ty) as Hty0 by (apply Z.div_pos; lia).
  assert (ty < height / 8) as Hty.
  { apply Z.div_lt_upper_bound; [lia|].
    assert (64 * tile < 64 * (width / 8 * (height / 8))) by nia. lia. }
  exists (8 * tx + dx), (8 * ty + dy).
  assert (0 ≤ 8 * tx + dx < width) as Hx by lia.
  assert (0 ≤ 8 * ty + dy < height) as Hy by lia.
  split; [done|]. split; [done|].
  rewrite source_offset_tiles; [|done|lia|done|done|by eapply tiled_image_row_fits].
  rewrite <- (texel_index_mod (8 * tx + dx) (8 * ty + dy)).
  assert ((8 * tx + dx) / 8 = tx) as -> by (Z.to_euclidean_division_equations; lia).
  assert ((8 * ty + dy) / 8 = ty) as -> by (Z.to_euclidean_division_equations; lia).
  assert ((8 * tx + dx) mod 8 = dx) as -> by (Z.to_euclidean_division_equations; lia).
  assert ((8 * ty + dy) mod 8 = dy) as -> by (Z.to_euclidean_division_equations; lia).
  rewrite Hback. lia.
Qed.

End Detiling.

Section Raster.
Import DebugUtils Tiling.

(** Concatenating blocks of one length [k]: element [j] of block [i] is
    at position [i * k + j]. *)
Lemma lookup_bind_blocks {A B} (f : A → list B) (k : nat) (l : list A) (i j : nat) :
  (∀ a, length (f a) = k) → (j < k)%nat →
  (l ≫= f) !! (i * k + j)%nat = l !! i ≫= fun a => f a !! j.
Proof.
  intros Hk Hj. revert i. induction l as [|a l IH]; intros i.
  - done.
  - rewrite bind_cons. destruct i as [|i]; simpl.
    + rewrite lookup_app_l by (rewrite Hk; lia). done.
    + rewrite lookup_app_r by (rewrite Hk; lia).
      rewrite Hk. replace (k + i * k + j - k)%nat with (i * k + j)%nat by lia.
      apply IH.
Qed.

Lemma length_bind_blocks {A B} (f : A → list B) (k : nat) (l : list A) :
  (∀ a, length (f a) = k) → length (l ≫= f) = (length l * k)%nat.
Proof.
  intros Hk. induction l as [|a l IH]; [done|].
  rewrite bind_cons, length_app, Hk, IH. simpl. lia.
Qed.

Lemma detile_rows width height data :
  detile width height data = seqZ 0 height ≫= detile_row width data.
Proof. reflexivity. Qed.

Lemma length_detile_row width data y :
  0 ≤ width → length (detile_row width data y) = Z.to_nat (3 * width).
Proof.
  intros Hw. unfold detile_row.
  rewrite (length_bind_blocks _ 3) by done. rewrite length_seqZ. lia.
Qed.


Lemma lookup_detile width height data x y c :
  0 ≤ x < width → 0 ≤ y < height → 0 ≤ c < 3 →
  detile width height data !! Z.to_nat (3 * x + y * (3 * width) + c)
  = Some (data !!! Z.to_nat (source_offset width x y + (2 - c))).
Proof.
  intros Hx Hy Hc. rewrite detile_rows.
  replace (Z.to_nat (3 * x + y * (3 * width) + c))
    with (Z.to_nat y * Z.to_nat (3 * width) + Z.to_nat (3 * x + c))%nat by nia.
  rewrite (lookup_bind_blocks _ (Z.to_nat (3 * width)));
    [|intros; apply length_detile_row; lia|lia].
  rewrite lookup_seqZ_lt by lia. simpl.
  unfold detile_row.
  replace (Z.to_nat (3 * x + c)) with (Z.to_nat x * 3 + Z.to_nat c)%nat by lia.
  rewrite (lookup_bind_blocks _ 3); [|done|lia].
  rewrite lookup_seqZ_lt by lia. simpl.
  rewrite !Z.add_0_l, !Z2Nat.id by lia.
  assert (c = 0 ∨ c = 1 ∨ c = 2) as [-> | [-> | ->]] by lia; simpl.
  - done.
  - done.
  - by rewrite Z.add_0_r.
Qed.

End Raster.

Section RasterProperties.
Import DebugUtils Tiling.


End RasterProperties.



(** X2.  On an image of whole tiles that fits the 32-bit offsets, and
    whose width keeps the [int] product [coarse_x * block_height * 3]
    within [INT_MAX], every read of [DumpTexture] stays inside the
    [3 * width * height] source bytes, at a whole texel; distinct texels
    are read from distinct places; and every source texel is read for
    some [(x, y)]. *)
Theorem source_offset_is_a_bijection (width height : Z) :
  tiled_image width height → int_addressable width →
  (∀ x y, 0 ≤ x < width → 0 ≤ y < height →
     ∃ q, 0 ≤ q < width * height ∧ DebugUtils.source_offset width x y = 3 * q)
  ∧ (∀ x y x' y',
       0 ≤ x < width → 0 ≤ y < height → 0 ≤ x' < width → 0 ≤ y' < height →
       DebugUtils.source_offset width x y = DebugUtils.source_offset width x' y' →
       (x, y) = (x', y'))
  ∧ (∀ q, 0 ≤ q < width * height →
       ∃ x y, 0 ≤ x < width ∧ 0 ≤ y < height
         ∧ DebugUtils.source_offset width x y = 3 * q).
Proof.
  intros Himage Hint. split_and!.
  - intros x y. by apply source_offset_slot.
  - intros x y x' y' Hx Hy Hx' Hy'.
    apply source_offset_injective; try lia; try done.
    + by destruct Himage as (_ & _ & ? & _).
    + by eapply tiled_image_row_fits.
    + by eapply tiled_image_row_fits.
  - intros q. by apply source_offset_covers.
Qed.

Lemma source_offset_is_a_bijection_witness :
  ∃ x y, 0 ≤ x < 16 ∧ 0 ≤ y < 8 ∧ DebugUtils.source_offset 16 x y = 3 * 100.
Proof.
  destruct (source_offset_is_a_bijection 16 8) as (_ & _ & Hcover).
  - unfold tiled_image. repeat split; lia.
  - unfold int_addressable, DebugUtils.block_height. lia.
  - apply Hcover. lia.
Defined.

(** X3.  De-tiling loses nothing on an image of whole tiles that fits
    the 32-bit offsets and whose width keeps the [int] product
    [coarse_x * block_height * 3] within [INT_MAX]: two source buffers of
    [3 * width * height] bytes with the same raster are the same. *)
Theorem detile_is_injective (width height : Z) (data1 data2 : list Z) :
  tiled_image width height → int_addressable width →
  Z.of_nat (length data1) = 3 * width * height →
  Z.of_nat (length data2) = 3 * width * height →
  DebugUtils.detile width height data1 = DebugUtils.detile width height data2 →
  data1 = data2.
Proof.
  intros Himage Hint Hlen1 Hlen2 Heq.
  apply list_eq. intros n.
  destruct (decide (Z.of_nat n < 3 * width * height)) as [Hn|Hn].
  2:{ rewrite !lookup_ge_None_2 by lia. done. }
  rewrite !list_lookup_lookup_total_lt by lia. f_equal.
  assert (0 ≤ Z.of_nat n / 3 < width * height) as Hq
    by (Z.to_euclidean_division_equations; lia).
  destruct (source_offset_covers width height _ Himage Hint Hq)
    as (x & y & Hx & Hy & Hoff).
  assert (0 ≤ 2 - Z.of_nat n mod 3 < 3) as Hc
    by (Z.to_euclidean_division_equations; lia).
  destruct Himage as (Hw & Hh & Himage).
  pose proof (lookup_detile width height data1 x y _ Hx Hy Hc) as H1.
  pose proof (lookup_detile width height data2 x y _ Hx Hy Hc) as H2.
  rewrite Heq, H2 in H1. injection H1 as H1.
  replace (Z.to_nat (DebugUtils.source_offset width x y
                     + (2 - (2 - Z.of_nat n mod 3)))) with n in H1.
  - done.
  - rewrite Hoff. Z.to_euclidean_division_equations. lia.
Qed.

Lemma detile_is_injective_witness :
  DebugUtils.detile 8 8 (seqZ 0 192) = DebugUtils.detile 8 8 (seqZ 0 192)
  ∧ seqZ 0 192 = seqZ 0 192.
Proof.
  split; [reflexivity|].
  apply (detile_is_injective 8 8 (seqZ 0 192) (seqZ 0 192)).
  - unfold tiled_image. repeat split; lia.
  - unfold int_addressable, DebugUtils.block_height. lia.
  - reflexivity.
  - reflexivity.
  - reflexivity.
Defined.

(** * Further properties of the tracer *)

Section TracerSessions.
Import DebugUtils.

Lemma tracer_call_session c session :
  tracer_call c (tracer_of_session session)
  = Some (tracer_of_session (session_call session c)).
Proof. by destruct c, session. Qed.

Lemma tracer_run_session calls session :
  tracer_run calls (tracer_of_session session)
  = Some (tracer_of_session (fold_left session_call calls session)).
Proof.
  revert session. induction calls as [|c calls IH]; intros session; simpl.
  - done.
  - rewrite tracer_call_session. simpl. apply IH.
Qed.

End TracerSessions.

(** X4.  Whatever calls of the tracing interface are made, in whatever
    order, starting from the initial tracer: no call dereferences a null
    trace, and the tracer is always either idle with no trace installed
    or tracing with a trace that holds exactly the writes made since the
    start of the session; [IsPicaTracing] tells which, and
    [FinishPicaTracing] returns that trace, or null when idle. *)
Theorem tracer_follows_sessions (calls : list TracerCall) :
  let session := fold_left session_call calls None in
  tracer_run calls DebugUtils.initial_tracer = Some (tracer_of_session session)
  ∧ DebugUtils.IsPicaTracing (tracer_of_session session)
    = bool_decide (is_Some session)
  ∧ (DebugUtils.FinishPicaTracing (tracer_of_session session)).1.1
    = (fun ws => {| DebugUtils.writes := ws |}) <$> session
  ∧ (DebugUtils.FinishPicaTracing (tracer_of_session session)).1.2
    = DebugUtils.initial_tracer.
Proof.
  intros session. split.
  - apply (tracer_run_session calls None).
  - by destruct session.
Qed.

(** * Further properties of the geometry dumper *)

Section GeometryDumperRuns.
Import DebugUtils Triangles.
Context {float : Type}.
Implicit Types (g : GeometryDumper float) (p : array3 float).

Lemma AddVertex_list_frame p topology g :
  is_list topology →
  ∃ g', AddVertex p topology g = Returned g'
    ∧ vertices g' = vertices g ++ [ {| pos := p |} ]
    ∧ (faces g' = faces g ∨ ∃ face, faces g' = faces g ++ [face]).
Proof.
  intros Hlist. rewrite (AddVertex_list p topology g Hlist). cbv zeta.
  eexists. split; [reflexivity|]. simpl. split; [done|].
  case_decide; [right; by eexists | by left].
Qed.

Lemma AddVertices_list_frame (calls : list (array3 float * TriangleTopology.t)) g :
  Forall (fun c => is_list c.2) calls →
  ∃ g' added,
    AddVertices calls g = Returned g'
    ∧ vertices g' = vertices g ++ ((fun c => {| pos := c.1 |}) <$> calls)
    ∧ faces g' = faces g ++ added
    ∧ (length added ≤ length calls)%nat.
Proof.
  intros Hlists. revert g.
  induction Hlists as [|[p topology] calls Hlist Hlists IH]; intros g.
  - exists g, []. simpl. by rewrite !app_nil_r.
  - destruct (AddVertex_list_frame p topology g Hlist) as (g1 & Hcall & Hv & Hf).
    destruct (IH g1) as (g' & added & Hrun & Hv' & Hf' & Hlen).
    simpl. rewrite Hcall.
    destruct Hf as [Hf | [face Hf]].
    + exists g', added. rewrite Hv', Hv, Hf', Hf, <- app_assoc.
      split_and!; [done..|lia].
    + exists g', (face :: added). rewrite Hv', Hv, Hf', Hf, <- !app_assoc.
      split_and!; [done..|simpl; lia].
Qed.

End GeometryDumperRuns.

(** X5.  [AddVertex] with a topology other than List and ListIndexed logs
    the topology and ends the process with exit status 0: a run of calls
    stops at the first such call, whatever the dumper held and whatever
    calls follow. *)
Theorem add_vertex_exits_on_unknown_topology {float : Type}
    (before after : list (DebugUtils.array3 float * DebugUtils.TriangleTopology.t))
    (p : DebugUtils.array3 float) (raw : Z) (g : DebugUtils.GeometryDumper float) :
  Forall (fun c => Triangles.is_list c.2) before →
  DebugUtils.AddVertices
    (before ++ (p, DebugUtils.TriangleTopology.Other raw) :: after) g
  = DebugUtils.Exited 0
      [ {| log_format := "Unknown triangle topology %x";
           log_args := [Int.to_int raw] |} ].
Proof.
  intros Hlists.
  destruct (AddVertices_list_frame before g Hlists) as (g' & added & Hrun & _).
  by rewrite AddVertices_app, Hrun.
Qed.

Lemma add_vertex_exits_on_unknown_topology_witness :
  let p : DebugUtils.array3 Z := DebugUtils.Array3 1 2 3 in
  DebugUtils.AddVertices
    [ (p, DebugUtils.TriangleTopology.List);
      (p, DebugUtils.TriangleTopology.Other 1);
      (p, DebugUtils.TriangleTopology.List) ]
    DebugUtils.fresh_dumper
  = DebugUtils.Exited 0
      [ {| log_format := "Unknown triangle topology %x"; log_args := [1] |} ].
Proof.
  intros p.
  apply (add_vertex_exits_on_unknown_topology
           [ (p, DebugUtils.TriangleTopology.List) ]
           [ (p, DebugUtils.TriangleTopology.List) ] p 1 DebugUtils.fresh_dumper).
  apply Forall_cons_2; [by left | apply Forall_nil_2].
Defined.

(** X6.  Calls with topology List or ListIndexed only ever append: on
    any dumper, of any size, a run of such calls returns, keeps the
    vertices and faces already there in place, appends the new vertices
    in call order, and appends at most one face per call. *)
Theorem add_vertex_only_appends {float : Type}
    (calls : list (DebugUtils.array3 float * DebugUtils.TriangleTopology.t))
    (g : DebugUtils.GeometryDumper float) :
  Forall (fun c => Triangles.is_list c.2) calls →
  ∃ g' added,
    DebugUtils.AddVertices calls g = DebugUtils.Returned g'
    ∧ DebugUtils.vertices g'
      = DebugUtils.vertices g ++ ((fun c => {| DebugUtils.pos := c.1 |}) <$> calls)
    ∧ DebugUtils.faces g' = DebugUtils.faces g ++ added
    ∧ (length added ≤ length calls)%nat.
Proof.
  intros Hlists.
  destruct (AddVertices_list_frame calls g Hlists)
    as (g' & added & Hrun & Hvertices & Hfaces & Hcount).
  by exists g', added.
Qed.

Lemma add_vertex_only_appends_witness :
  let p : DebugUtils.array3 Z := DebugUtils.Array3 1 2 3 in
  let g := {| DebugUtils.vertices := [ {| DebugUtils.pos := p |} ];
              DebugUtils.faces := [ Triangles.triangle 5 ] |} in
  ∃ g' added,
    DebugUtils.AddVertices
      [ (p, DebugUtils.TriangleTopology.List);
        (p, DebugUtils.TriangleTopology.ListIndexed) ] g
    = DebugUtils.Returned g'
    ∧ DebugUtils.faces g' = Triangles.triangle 5 :: added
    ∧ (length added ≤ 2)%nat.
Proof.
  intros p g.
  destruct (add_vertex_only_appends
              [ (p, DebugUtils.TriangleTopology.List);
                (p, DebugUtils.TriangleTopology.ListIndexed) ] g)
    as (g' & added & Hrun & _ & Hfaces & Hlen).
  - apply Forall_cons_2; [by left|].
    apply Forall_cons_2; [by right | apply Forall_nil_2].
  - by exists g', added.
Defined.

(** * Further properties of the shader dump *)

Section OutputInfoTable.
Import DebugUtils.
Variable semantic_value : OutputAttributes.Semantic → Z.
Variable dbg_assert_msg : string → list LogEntry.

Lemma merge_mask_found i type mask table table' :
  merge_mask i type mask table = Some table' →
  table_key <$> table' = table_key <$> table
  ∧ ∀ j u, table_mask table' j u =
      if decide (i = j ∧ type = u) then Z.lor (table_mask table j u) mask
      else table_mask table j u.
Proof.
  revert table'. induction table as [|info rest IH]; intros table'; simpl; [done|].
  destruct (decide (OutputRegisterInfo.id info = i
                    ∧ OutputRegisterInfo.type info = type)) as [[Hi Ht]|Hno].
  - intros [= <-]. split; [done|]. intros j u. simpl.
    subst i type. by repeat case_decide.
  - destruct (merge_mask i type mask rest) as [rest'|] eqn:Hrest; [|done].
    intros [= <-]. destruct (IH rest' eq_refl) as [Hkeys Hmasks].
    split; [by rewrite !fmap_cons, Hkeys|].
    intros j u. simpl. rewrite Hmasks.
    repeat case_decide; try done. destruct Hno. intuition congruence.
Qed.

Lemma merge_mask_missing i type mask table :
  merge_mask i type mask table = None →
  ((i, type) ∉ (table_key <$> table))
  ∧ table_mask table i type = 0
  ∧ ∀ info j u,
      table_key info = (i, type) →
      table_mask (table ++ [info]) j u =
        if decide (i = j ∧ type = u) then OutputRegisterInfo.component_mask info
        else table_mask table j u.
Proof.
  induction table as [|info rest IH]; simpl.
  - intros _. split; [apply not_elem_of_nil|]. split; [done|].
    intros info j u [= Hi Ht]. rewrite Hi, Ht. by repeat case_decide.
  - destruct (decide (OutputRegisterInfo.id info = i
                      ∧ OutputRegisterInfo.type info = type)) as [|Hno]; [done|].
    destruct (merge_mask i type mask rest) as [rest'|] eqn:Hrest; [done|].
    intros _. destruct (IH eq_refl) as (Hnotin & Hzero & Hpush).
    split.
    { rewrite not_elem_of_cons. split; [|done].
      unfold table_key. intros [= Hi Ht]. by destruct Hno. }
    split; [done|].
    intros new j u Hkey. rewrite (Hpush new j u Hkey).
    repeat case_decide; try done. destruct Hno. intuition congruence.
Qed.

(** One semantic of attribute [i]: the mask read for a register and type
    gains the semantic's bit when it is that register and type, and the
    keys stay distinct. *)
Lemma add_semantic_mask i attributes state semantic j u :
  table_mask (add_semantic semantic_value dbg_assert_msg i attributes state semantic).1 j u
  = Z.lor (table_mask state.1 j u)
          (if decide (i = j) then semantic_mask semantic u else 0).
Proof.
  destruct state as [table log]. unfold add_semantic, semantic_mask.
  destruct (decide (semantic = OutputAttributes.INVALID)) as [->|Hvalid].
  { simpl. case_decide; by rewrite Z.lor_0_r. }
  destruct (semantic_map semantic) as [[type mask]|] eqn:Hmap.
  2:{ simpl. case_decide; by rewrite Z.lor_0_r. }
  destruct (merge_mask i type mask table) as [table'|] eqn:Hmerge; simpl.
  - destruct (merge_mask_found _ _ _ _ _ Hmerge) as [_ ->].
    repeat case_decide; try rewrite Z.lor_0_r; try done; intuition congruence.
  - destruct (merge_mask_missing _ _ _ _ Hmerge) as (_ & Hzero & Hpush).
    rewrite Hpush by done. simpl.
    repeat case_decide; try rewrite Z.lor_0_r; try done;
      try (exfalso; intuition congruence).
    destruct_and!. subst. by rewrite Hzero.
Qed.

Lemma add_semantic_keys i attributes state semantic :
  0 ≤ i < 7 →
  NoDup (table_key <$> state.1) →
  Forall (fun info => 0 ≤ OutputRegisterInfo.id info < 7) state.1 →
  NoDup (table_key <$> (add_semantic semantic_value dbg_assert_msg i attributes state semantic).1)
  ∧ Forall (fun info => 0 ≤ OutputRegisterInfo.id info < 7)
      (add_semantic semantic_value dbg_assert_msg i attributes state semantic).1.
Proof.
  intros Hi. destruct state as [table log]. unfold add_semantic. simpl.
  intros Hnodup Hids.
  destruct (decide (semantic = OutputAttributes.INVALID)); [done|].
  destruct (semantic_map semantic) as [[type mask]|]; [|done].
  destruct (merge_mask i type mask table) as [table'|] eqn:Hmerge; simpl.
  - destruct (merge_mask_found _ _ _ _ _ Hmerge) as [Hkeys _].
    split; [by rewrite Hkeys|].
    apply (f_equal (fmap fst)) in Hkeys. rewrite <- !list_fmap_compose in Hkeys.
    change (OutputRegisterInfo.id <$> table' = OutputRegisterInfo.id <$> table) in Hkeys.
    apply (Forall_fmap OutputRegisterInfo.id (fun k => 0 ≤ k < 7)).
    rewrite Hkeys.
    by apply (Forall_fmap OutputRegisterInfo.id (fun k => 0 ≤ k < 7)).
  - destruct (merge_mask_missing _ _ _ _ Hmerge) as (Hnotin & _).
    split.
    + rewrite fmap_app. apply NoDup_app. split; [done|].
      split; [|apply NoDup_singleton].
      intros key Hkey Hnew. apply list_elem_of_singleton in Hnew. by subst.
    + apply Forall_app. split; [done|]. by apply Forall_singleton.
Qed.

(** The loop over the semantics of attribute [i]. *)
Lemma add_semantics_mask i attributes state semantics j u :
  table_mask (fold_left (add_semantic semantic_value dbg_assert_msg i attributes) semantics state).1 j u
  = Z.lor (table_mask state.1 j u)
      (if decide (i = j)
       then foldr (fun semantic mask => Z.lor (semantic_mask semantic u) mask) 0 semantics
       else 0).
Proof.
  revert state. induction semantics as [|semantic semantics IH]; intros state; simpl.
  - case_decide; by rewrite Z.lor_0_r.
  - rewrite IH, add_semantic_mask.
    case_decide; [|by rewrite !Z.lor_0_r].
    by rewrite Z.lor_assoc.
Qed.

Lemma add_semantics_keys i attributes state semantics :
  0 ≤ i < 7 →
  NoDup (table_key <$> state.1) →
  Forall (fun info => 0 ≤ OutputRegisterInfo.id info < 7) state.1 →
  NoDup (table_key <$>
           (fold_left (add_semantic semantic_value dbg_assert_msg i attributes) semantics state).1)
  ∧ Forall (fun info => 0 ≤ OutputRegisterInfo.id info < 7)
      (fold_left (add_semantic semantic_value dbg_assert_msg i attributes) semantics state).1.
Proof.
  intros Hi. revert state.
  induction semantics as [|semantic semantics IH]; intros state Hnodup Hids; simpl.
  - done.
  - destruct (add_semantic_keys i attributes state semantic Hi Hnodup Hids).
    by apply IH.
Qed.

Lemma add_semantic_log i attributes state semantic :
  (add_semantic semantic_value dbg_assert_msg i attributes state semantic).2
  = state.2 ++
    (if unknown_semantic semantic
     then unknown_semantic_log semantic_value dbg_assert_msg attributes
     else []).
Proof.
  destruct state as [table log]. unfold add_semantic.
  destruct semantic; simpl;
    try (destruct (merge_mask _ _ _ _); simpl; by rewrite app_nil_r).
  - by rewrite app_nil_r.
  - done.
Qed.

Lemma add_semantics_log i attributes state semantics :
  (fold_left (add_semantic semantic_value dbg_assert_msg i attributes) semantics state).2
  = state.2 ++
    (semantic ← semantics;
     if unknown_semantic semantic
     then unknown_semantic_log semantic_value dbg_assert_msg attributes
     else []).
Proof.
  revert state. induction semantics as [|semantic semantics IH]; intros state.
  - simpl. by rewrite app_nil_r.
  - cbn [fold_left]. rewrite IH, add_semantic_log, bind_cons, <- app_assoc. done.
Qed.

Local Abbreviation outer_loop := (outer_loop_from semantic_value dbg_assert_msg).

Lemma outer_loop_build output_attributes :
  build_output_info_table semantic_value dbg_assert_msg output_attributes
  = outer_loop 0 7 output_attributes ([], []).
Proof. reflexivity. Qed.

Lemma outer_loop_nil m k state : outer_loop m k [] state = state.
Proof. unfold outer_loop_from. by rewrite zip_with_nil_r. Qed.

Lemma outer_loop_cons m k attributes rest state :
  outer_loop m (S k) (attributes :: rest) state
  = outer_loop (m + 1) k rest
      (fold_left (add_semantic semantic_value dbg_assert_msg m attributes)
         (semantics_of attributes) state).
Proof.
  unfold outer_loop_from. rewrite seqZ_cons by lia.
  replace (Z.pred (Z.of_nat (S k))) with (Z.of_nat k) by lia.
  replace (Z.succ m) with (m + 1) by lia. done.
Qed.

Lemma outer_loop_mask m k output_attributes state j u :
  table_mask (outer_loop m k output_attributes state).1 j u
  = Z.lor (table_mask state.1 j u)
      (if decide (m ≤ j < m + Z.of_nat k)
       then from_option (fun attributes => attribute_mask attributes u) 0
              (output_attributes !! Z.to_nat (j - m))
       else 0).
Proof.
  revert m output_attributes state.
  induction k as [|k IH]; intros m output_attributes state.
  - unfold outer_loop_from. simpl. rewrite decide_False by lia. by rewrite Z.lor_0_r.
  - destruct output_attributes as [|attributes rest].
    + rewrite outer_loop_nil. rewrite lookup_nil. simpl.
      case_decide; by rewrite Z.lor_0_r.
    + rewrite outer_loop_cons, IH, add_semantics_mask.
      rewrite <- Z.lor_assoc. f_equal.
      destruct (decide (m = j)) as [->|Hne].
      * rewrite decide_False by lia. rewrite decide_True by lia.
        rewrite Z.sub_diag. simpl. unfold attribute_mask.
        by rewrite !Z.lor_0_r.
      * rewrite Z.lor_0_l.
        destruct (decide (m + 1 ≤ j < m + 1 + Z.of_nat k)) as [Hin|Hout].
        -- rewrite decide_True by lia.
           replace (Z.to_nat (j - m)) with (S (Z.to_nat (j - (m + 1)))) by lia.
           done.
        -- by rewrite decide_False by lia.
Qed.

Lemma outer_loop_keys m k output_attributes state :
  0 ≤ m → m + Z.of_nat k ≤ 7 →
  NoDup (table_key <$> state.1) →
  Forall (fun info => 0 ≤ OutputRegisterInfo.id info < 7) state.1 →
  NoDup (table_key <$> (outer_loop m k output_attributes state).1)
  ∧ Forall (fun info => 0 ≤ OutputRegisterInfo.id info < 7)
      (outer_loop m k output_attributes state).1.
Proof.
  revert m output_attributes state.
  induction k as [|k IH]; intros m output_attributes state Hm Hk Hnodup Hids.
  - done.
  - destruct output_attributes as [|attributes rest].
    + by rewrite outer_loop_nil.
    + rewrite outer_loop_cons.
      destruct (add_semantics_keys m attributes state (semantics_of attributes))
        as [Hnodup' Hids']; [lia | done | done |].
      apply IH; [lia | lia | done | done].
Qed.

Lemma outer_loop_log m k output_attributes state :
  (outer_loop m k output_attributes state).2
  = state.2 ++
    (attributes ← take k output_attributes;
     semantic ← semantics_of attributes;
     if unknown_semantic semantic
     then unknown_semantic_log semantic_value dbg_assert_msg attributes
     else []).
Proof.
  revert m output_attributes state.
  induction k as [|k IH]; intros m output_attributes state.
  - unfold outer_loop_from. simpl. by rewrite app_nil_r.
  - destruct output_attributes as [|attributes rest].
    + rewrite outer_loop_nil. simpl. by rewrite app_nil_r.
    + rewrite outer_loop_cons, IH, add_semantics_log.
      rewrite firstn_cons, bind_cons, <- app_assoc. done.
Qed.

(** Each unknown semantic adds the same number of entries. *)
Lemma length_unknown_log (semantics : list OutputAttributes.Semantic) attributes :
  length (semantic ← semantics;
          if unknown_semantic semantic
          then unknown_semantic_log semantic_value dbg_assert_msg attributes
          else [])
  = (length (filter (fun semantic => unknown_semantic semantic = true) semantics)
     * (length (dbg_assert_msg "Unknown output attribute mapping") + 1))%nat.
Proof.
  induction semantics as [|semantic semantics IH]; [done|].
  rewrite bind_cons, length_app, IH, filter_cons.
  destruct (unknown_semantic semantic); simpl.
  - unfold unknown_semantic_log. rewrite length_app. simpl. lia.
  - lia.
Qed.

Lemma length_unknown_semantics_log output_attributes :
  length (unknown_semantics_log semantic_value dbg_assert_msg output_attributes)
  = (unknown_semantics output_attributes
     * (length (dbg_assert_msg "Unknown output attribute mapping") + 1))%nat.
Proof.
  unfold unknown_semantics_log, unknown_semantics.
  induction (take 7 output_attributes) as [|attributes rest IH]; [done|].
  rewrite !bind_cons, length_app, filter_app, length_app, IH, length_unknown_log.
  lia.
Qed.

End OutputInfoTable.

(** X7.  The output register table that [DumpShader] builds gives, for
    each of the first seven output attributes [j] and each register type,
    the OR of the component bits of the attribute's semantics of that
    type; semantics that are [INVALID] or have no mapping contribute
    nothing, and nothing is recorded for registers past the seventh or
    past the attributes given. *)
Theorem output_info_table_collects_components
    (semantic_value : DebugUtils.OutputAttributes.Semantic → Z)
    (dbg_assert_msg : string → list LogEntry)
    (output_attributes : list DebugUtils.OutputAttributes.t) (j type : Z) :
  table_mask
    (DebugUtils.build_output_info_table semantic_value dbg_assert_msg
       output_attributes).1 j type
  = if decide (0 ≤ j < 7)
    then from_option (fun attributes => attribute_mask attributes type) 0
           (output_attributes !! Z.to_nat j)
    else 0.
Proof.
  rewrite outer_loop_build, outer_loop_mask.
  cbn [fst table_mask]. rewrite Z.lor_0_l, Z.sub_0_r.
  repeat case_decide; try done; lia.
Qed.

(** X8.  In the output register table no two entries describe the same
    register and type, and every entry belongs to one of the registers
    0 to 6. *)
Theorem output_info_table_has_distinct_keys
    (semantic_value : DebugUtils.OutputAttributes.Semantic → Z)
    (dbg_assert_msg : string → list LogEntry)
    (output_attributes : list DebugUtils.OutputAttributes.t) :
  NoDup (table_key <$>
           (DebugUtils.build_output_info_table semantic_value dbg_assert_msg
       output_attributes).1)
  ∧ Forall (fun info => 0 ≤ DebugUtils.OutputRegisterInfo.id info < 7)
      (DebugUtils.build_output_info_table semantic_value dbg_assert_msg
       output_attributes).1.
Proof.
  rewrite outer_loop_build.
  apply outer_loop_keys; [lia | simpl; lia | apply NoDup_nil_2 | apply Forall_nil_2].
Qed.

(** X9.  Building the table leaves in the log, for each semantic among
    those of the first seven attributes that is neither [INVALID] nor one
    of the fourteen mapped semantics, in the order visited, what the
    failed debug assertion logs followed by one "Unknown output attribute
    mapping" error listing the four semantics of its attribute, and
    nothing else; so the log is empty when every semantic is mapped or
    [INVALID], and in a build that compiles the assertion out it has
    exactly one entry per unknown semantic. *)
Theorem output_info_table_logs_unknown_semantics
    (semantic_value : DebugUtils.OutputAttributes.Semantic → Z)
    (dbg_assert_msg : string → list LogEntry)
    (output_attributes : list DebugUtils.OutputAttributes.t) :
  (DebugUtils.build_output_info_table semantic_value dbg_assert_msg
     output_attributes).2
  = unknown_semantics_log semantic_value dbg_assert_msg output_attributes
  ∧ length (DebugUtils.build_output_info_table semantic_value dbg_assert_msg
              output_attributes).2
    = (unknown_semantics output_attributes
       * (length (dbg_assert_msg "Unknown output attribute mapping") + 1))%nat
  ∧ (dbg_assert_msg "Unknown output attribute mapping" = [] →
     length (DebugUtils.build_output_info_table semantic_value dbg_assert_msg
               output_attributes).2
     = unknown_semantics output_attributes)
  ∧ (unknown_semantics output_attributes = 0%nat →
     (DebugUtils.build_output_info_table semantic_value dbg_assert_msg
        output_attributes).2 = []).
Proof.
  assert ((DebugUtils.build_output_info_table semantic_value dbg_assert_msg
             output_attributes).2
          = unknown_semantics_log semantic_value dbg_assert_msg output_attributes)
    as Hlog.
  { rewrite outer_loop_build, outer_loop_log. done. }
  rewrite Hlog, length_unknown_semantics_log.
  split_and!; [done | done | |].
  - intros ->. simpl. lia.
  - intros Hnone.
    apply length_zero_iff_nil.
    by rewrite length_unknown_semantics_log, Hnone.
Qed.

Section ShaderFile.
Import DebugUtils.

Lemma le_value_le_bytes n v :
  le_value (le_bytes n v) = v mod 2 ^ (8 * Z.of_nat n).
Proof.
  revert v. induction n as [|n IH]; intros v.
  - simpl. by rewrite Z.mod_1_r.
  - cbn [le_bytes le_value]. rewrite IH.
    replace (8 * Z.of_nat (S n)) with (8 + 8 * Z.of_nat n) by lia.
    rewrite Z.pow_add_r by lia.
    change 255 with (Z.ones 8). rewrite Z.land_ones by lia.
    rewrite Z.shiftr_div_pow2 by lia.
    change (2 ^ 8) with 256.
    rewrite Z.rem_mul_r by lia. done.
Qed.

Lemma le_value_u32 v : Int.is_u32 v → le_value (le_bytes 4 v) = v.
Proof.
  intros Hv. rewrite le_value_le_bytes. apply Z.mod_small. exact Hv.
Qed.

Lemma drop_bind_blocks {A B} (f : A → list B) (k : nat) (l : list A) (i : nat) :
  (∀ a, length (f a) = k) → drop (i * k) (l ≫= f) = drop i l ≫= f.
Proof.
  intros Hk. revert i. induction l as [|a l IH]; intros i.
  - rewrite drop_nil. change (drop (i * k) (@nil B) = []). apply drop_nil.
  - destruct i as [|i]; [done|].
    rewrite bind_cons. simpl.
    rewrite drop_app_ge by (rewrite Hk; lia).
    rewrite Hk. replace (k + i * k - k)%nat with (i * k)%nat by lia.
    apply IH.
Qed.

(** Field [i] of a run of 32-bit fields is at byte [4 * i]. *)
Lemma file_from_field (fields : list Z) (rest : list Z) (i : nat) v :
  fields !! i = Some v →
  take 4 (file_from ((fields ≫= le_bytes 4) ++ rest) (4 * Z.of_nat i))
  = le_bytes 4 v.
Proof.
  intros Hfield. unfold file_from.
  replace (Z.to_nat (4 * Z.of_nat i)) with (i * 4)%nat by lia.
  assert (i < length fields)%nat as Hi by (by eapply lookup_lt_Some).
  rewrite drop_app_le.
  2:{ rewrite (length_bind_blocks _ 4) by done. lia. }
  rewrite (drop_bind_blocks _ 4) by done.
  rewrite (drop_S _ _ _ Hfield), bind_cons, <- app_assoc.
  by rewrite take_app_length' by done.
Qed.

Lemma read_u32_field (fields : list Z) (rest : list Z) (i : nat) v :
  fields !! i = Some v → Int.is_u32 v →
  read_u32 ((fields ≫= le_bytes 4) ++ rest) (4 * Z.of_nat i) = v.
Proof.
  intros Hfield Hv. unfold read_u32.
  pose proof (file_from_field fields rest i v Hfield) as Htake.
  unfold file_from in Htake. rewrite Htake. by apply le_value_u32.
Qed.

Lemma length_words_bytes words :
  length (words_bytes words) = (4 * length words)%nat.
Proof.
  unfold words_bytes. rewrite (length_bind_blocks _ 4) by done. lia.
Qed.

Lemma DVLB_bytes h :
  DVLBHeader.bytes h
  = [DVLBHeader.magic_word h; DVLBHeader.num_programs h] ≫= le_bytes 4.
Proof. by destruct h. Qed.

Lemma DVLP_bytes h : DVLPHeader.bytes h = DVLPHeader.values h ≫= le_bytes 4.
Proof. by destruct h. Qed.

Lemma DVLE_bytes h :
  DVLEHeader.pad1 h = 0 → DVLEHeader.type h = 0 → DVLEHeader.pad2 h = 0 →
  DVLEHeader.bytes h
  = (DVLEHeader.magic_word h :: 0 :: drop 4 (DVLEHeader.values h)) ≫= le_bytes 4.
Proof. destruct h. simpl. by intros -> -> ->. Qed.

End ShaderFile.

Section ShaderFileLayout.
Import DebugUtils.

Lemma to_u32_small z : Int.is_u32 z → Int.to_u32 z = z.
Proof. intros Hz. apply Z.mod_small. exact Hz. Qed.

(** With sizes that fit the 32-bit offsets, the file is the 26 header
    words followed by the binary, the swizzle patterns and the output
    register table. *)
Lemma shader_file_layout binary_data swizzle_data main_offset table :
  104 + 4 * Z.of_nat (length binary_data) + 8 * Z.of_nat (length swizzle_data) < 2 ^ 32 →
  Z.of_nat (length table) < 2 ^ 32 →
  shader_file binary_data (Z.of_nat (length binary_data))
    swizzle_data (Z.of_nat (length swizzle_data)) main_offset table
  = (shader_fields (Z.of_nat (length binary_data)) (Z.of_nat (length swizzle_data))
       main_offset (Z.of_nat (length table)) ≫= le_bytes 4)
    ++ words_bytes binary_data
    ++ (swizzle_data ≫= fun w => le_bytes 4 w ++ le_bytes 4 0)
    ++ (table ≫= fun info => le_bytes 8 (OutputRegisterInfo.hex info)).
Proof.
  intros Hfit Htable.
  unfold shader_file. cbv zeta.
  rewrite DVLB_bytes, DVLP_bytes, DVLE_bytes by done.
  change (struct_sizeof pragma_pack DVLBHeader.members) with 8.
  change (struct_sizeof pragma_pack DVLPHeader.members) with 28.
  change (struct_sizeof pragma_pack DVLEHeader.members) with 64.
  change (sizeof U32) with 4.
  change (Int.to_u32 (8 + 4 + 28)) with 40.
  change (Int.to_u32 (40 + 64)) with 104.
  change (Int.to_u32 (104 - (8 + 4))) with 92.
  set (bs := Z.of_nat (length binary_data)) in *.
  set (ss := Z.of_nat (length swizzle_data)) in *.
  assert (0 ≤ bs) by lia. assert (0 ≤ ss) by lia.
  rewrite (to_u32_small (bs * 4)) by (unfold Int.is_u32; lia).
  rewrite (to_u32_small ss) by (unfold Int.is_u32; lia).
  rewrite (to_u32_small (104 + bs * 4)) by (unfold Int.is_u32; lia).
  rewrite (to_u32_small (104 + bs * 4 + 8 * ss)) by (unfold Int.is_u32; lia).
  rewrite (to_u32_small (104 + bs * 4 - (8 + 4))) by (unfold Int.is_u32; lia).
  rewrite (to_u32_small (104 + bs * 4 + 8 * ss - 40)) by (unfold Int.is_u32; lia).
  rewrite (to_u32_small (Z.of_nat (length table))) by (unfold Int.is_u32; lia).
  replace (104 + bs * 4 - (8 + 4)) with (92 + 4 * bs) by lia.
  replace (104 + bs * 4 + 8 * ss - 40) with (64 + 4 * bs + 8 * ss) by lia.
  unfold bs, ss. rewrite !Nat2Z.id, !firstn_all.
  unfold shader_fields. cbn [DVLBHeader.magic_word DVLBHeader.num_programs
    DVLPHeader.values DVLEHeader.values DVLEHeader.magic_word drop].
  reflexivity.
Qed.

Lemma length_shader_fields bs ss main_offset n :
  length (shader_fields bs ss main_offset n ≫= le_bytes 4) = 104%nat.
Proof. by rewrite (length_bind_blocks _ 4). Qed.

End ShaderFileLayout.

Section ShaderFileReading.
Import DebugUtils.

Lemma read_u32_at (fields rest : list Z) (offset : Z) (i : nat) v :
  offset = 4 * Z.of_nat i → fields !! i = Some v → Int.is_u32 v →
  read_u32 ((fields ≫= le_bytes 4) ++ rest) offset = v.
Proof. intros ->. apply read_u32_field. Qed.

Lemma magic_at (fields rest : list Z) (offset : Z) (i : nat) v :
  offset = 4 * Z.of_nat i → fields !! i = Some v →
  take 4 (file_from ((fields ≫= le_bytes 4) ++ rest) offset) = le_bytes 4 v.
Proof. intros ->. apply file_from_field. Qed.

Lemma file_from_second (header part rest : list Z) (offset : Z) :
  offset = Z.of_nat (length header) →
  file_from (header ++ part ++ rest) offset = part ++ rest.
Proof.
  intros ->. unfold file_from. rewrite Nat2Z.id. apply drop_app_length.
Qed.

Lemma file_from_third (header part1 part2 rest : list Z) (offset : Z) :
  offset = Z.of_nat (length header) + Z.of_nat (length part1) →
  file_from (header ++ part1 ++ part2 ++ rest) offset = part2 ++ rest.
Proof.
  intros ->. unfold file_from.
  replace (Z.to_nat (Z.of_nat (length header) + Z.of_nat (length part1)))
    with (length header + length part1)%nat by lia.
  rewrite drop_app_add. apply drop_app_length.
Qed.

Lemma file_from_fourth (header part1 part2 rest : list Z) (offset : Z) :
  offset = Z.of_nat (length header) + Z.of_nat (length part1)
           + Z.of_nat (length part2) →
  file_from (header ++ part1 ++ part2 ++ rest) offset = rest.
Proof.
  intros ->. unfold file_from.
  replace (Z.to_nat (Z.of_nat (length header) + Z.of_nat (length part1)
                     + Z.of_nat (length part2)))
    with (length header + (length part1 + length part2))%nat by lia.
  rewrite drop_app_add, drop_app_add. apply drop_app_length.
Qed.

End ShaderFileReading.

(** X10.  The file [DumpShader] assembles describes itself.  For a
    binary, swizzle patterns and output register table whose sizes fit
    the 32-bit offsets: the file opens with "DVLB" and a program count of
    one; its one program offset leads to a "DVLE" header and a "DVLP"
    header follows the program table; the binary offset and size in that
    header delimit exactly the binary words, the swizzle pattern offset
    and count delimit the patterns, each followed by a zero word; the
    program header carries the main offset, and its output register table
    offset and size delimit the table, which ends the file. *)
Theorem shader_file_is_self_describing
    (binary_data swizzle_data : list Z) (main_offset : Z)
    (table : list DebugUtils.OutputRegisterInfo.t) :
  104 + 4 * Z.of_nat (length binary_data) + 8 * Z.of_nat (length swizzle_data)
    < 2 ^ 32 →
  Z.of_nat (length table) < 2 ^ 32 →
  Int.is_u32 main_offset →
  let file :=
    DebugUtils.shader_file binary_data (Z.of_nat (length binary_data))
      swizzle_data (Z.of_nat (length swizzle_data)) main_offset table in
  let dvlp := 12 in
  let dvle := read_u32 file 8 in
  take 4 file = DebugUtils.ascii_codes "DVLB"
  ∧ read_u32 file 4 = 1
  ∧ take 4 (file_from file dvlp) = DebugUtils.ascii_codes "DVLP"
  ∧ take 4 (file_from file dvle) = DebugUtils.ascii_codes "DVLE"
  ∧ read_u32 file (dvlp + 12) = Z.of_nat (length binary_data)
  ∧ take (4 * length binary_data)
      (file_from file (dvlp + read_u32 file (dvlp + 8)))
    = DebugUtils.words_bytes binary_data
  ∧ read_u32 file (dvlp + 20) = Z.of_nat (length swizzle_data)
  ∧ take (8 * length swizzle_data)
      (file_from file (dvlp + read_u32 file (dvlp + 16)))
    = (w ← swizzle_data; DebugUtils.le_bytes 4 w ++ DebugUtils.le_bytes 4 0)
  ∧ read_u32 file (dvle + 8) = main_offset
  ∧ read_u32 file (dvle + 44) = Z.of_nat (length table)
  ∧ file_from file (dvle + read_u32 file (dvle + 40))
    = (info ← table;
       DebugUtils.le_bytes 8 (DebugUtils.OutputRegisterInfo.hex info)).
Proof.
  intros Hfit Htable Hmain file dvlp dvle.
  unfold dvle, dvlp, file. clear file dvlp dvle.
  rewrite shader_file_layout by done.
  set (bs := Z.of_nat (length binary_data)) in *.
  set (ss := Z.of_nat (length swizzle_data)) in *.
  set (fields := shader_fields bs ss main_offset (Z.of_nat (length table))).
  set (binary := DebugUtils.words_bytes binary_data).
  set (patterns := swizzle_data ≫= _).
  set (registers := table ≫= _).
  assert (0 ≤ bs) by lia. assert (0 ≤ ss) by lia.
  assert (length (fields ≫= DebugUtils.le_bytes 4) = 104%nat) as Hheader
    by apply length_shader_fields.
  assert (length binary = (4 * length binary_data)%nat) as Hbinary
    by apply length_words_bytes.
  assert (length patterns = (8 * length swizzle_data)%nat) as Hpatterns.
  { unfold patterns. rewrite (length_bind_blocks _ 8) by done. lia. }
  rewrite (read_u32_at fields _ 8 2 40) by (try done; unfold Int.is_u32; lia).
  rewrite (read_u32_at fields _ (12 + 8) 5 92) by (try done; unfold Int.is_u32; lia).
  rewrite (read_u32_at fields _ (12 + 16) 7 (92 + 4 * bs))
    by (try done; unfold Int.is_u32; lia).
  rewrite (read_u32_at fields _ (40 + 40) 20 (64 + 4 * bs + 8 * ss))
    by (try done; unfold Int.is_u32; lia).
  split_and!.
  - reflexivity.
  - apply (read_u32_at fields _ 4 1 1); [done | done | unfold Int.is_u32; lia].
  - by rewrite (magic_at fields _ 12 3 DebugUtils.DVLPHeader.MAGIC_WORD).
  - by rewrite (magic_at fields _ 40 10 DebugUtils.DVLEHeader.MAGIC_WORD).
  - apply (read_u32_at fields _ _ 6 bs); [done | done | unfold Int.is_u32; lia].
  - rewrite file_from_second by (rewrite Hheader; lia).
    by rewrite take_app_length' by done.
  - apply (read_u32_at fields _ _ 8 ss); [done | done | unfold Int.is_u32; lia].
  - rewrite file_from_third by (rewrite Hheader, Hbinary; lia).
    by rewrite take_app_length' by done.
  - by apply (read_u32_at fields _ _ 12 main_offset).
  - apply (read_u32_at fields _ _ 21 (Z.of_nat (length table)));
      [done | done | unfold Int.is_u32; lia].
  - apply file_from_fourth. rewrite Hheader, Hbinary, Hpatterns. lia.
Qed.

Lemma shader_file_is_self_describing_witness :
  let file := DebugUtils.shader_file [17; 18] 2 [5] 1 0
                [ {| DebugUtils.OutputRegisterInfo.type := 0;
                     DebugUtils.OutputRegisterInfo.id := 0;
                     DebugUtils.OutputRegisterInfo.component_mask := 15 |} ] in
  length file = 128%nat
  ∧ take 8 (file_from file (12 + read_u32 file 20)) = [17; 0; 0; 0; 18; 0; 0; 0].
Proof.
  intros file.
  destruct (shader_file_is_self_describing [17; 18] [5] 0
              [ {| DebugUtils.OutputRegisterInfo.type := 0;
                   DebugUtils.OutputRegisterInfo.id := 0;
                   DebugUtils.OutputRegisterInfo.component_mask := 15 |} ])
    as (_ & _ & _ & _ & _ & Hbinary & _);
    [simpl; lia | simpl; lia | unfold Int.is_u32; lia |].
  split; [reflexivity | exact Hbinary].
Defined.

(** * Further properties of the swizzle key *)

Section SwizzleKey.
Import Vulkan.

(** A 32-bit value shifted left inside 32 bits keeps its low bits, moved
    up: those that would pass bit 31 are cut. *)
Lemma to_u32_shifted v n low_bits :
  0 ≤ n → 0 ≤ low_bits → n + low_bits = 32 →
  Int.to_u32 (Z.shiftl (Int.to_u32 v) n) = (v mod 2 ^ low_bits) * 2 ^ n.
Proof.
  intros Hn Hlow Hsum. unfold Int.to_u32, Int.u32_mod.
  rewrite Z.shiftl_mul_pow2 by done.
  replace 32 with (low_bits + n) by lia.
  rewrite Z.pow_add_r by done.
  assert (0 < 2 ^ n) by (apply Z.pow_pos_nonneg; lia).
  assert (0 < 2 ^ low_bits) by (apply Z.pow_pos_nonneg; lia).
  rewrite Z.mul_mod_distr_r by lia. f_equal.
  rewrite Z.rem_mul_r by lia.
  rewrite (Z.mul_comm (2 ^ low_bits)), Z.mod_add by lia.
  apply Z.mod_mod. lia.
Qed.

Lemma lor_below a b n :
  0 ≤ n → 0 ≤ a < 2 ^ n → 0 ≤ b < 2 ^ n → 0 ≤ Z.lor a b < 2 ^ n.
Proof.
  intros Hn Ha Hb.
  rewrite <- (Z.mod_small a (2 ^ n)), <- (Z.mod_small b (2 ^ n)) by done.
  rewrite <- !Z.land_ones, <- Z.land_lor_distr_l, Z.land_ones by done.
  apply Z.mod_pos_bound. apply Z.pow_pos_nonneg; lia.
Qed.

Lemma to_u32_range z : 0 ≤ Int.to_u32 z < 2 ^ 32.
Proof. apply Z.mod_pos_bound. done. Qed.

Lemma EncodeSwizzle_parts x y z w :
  EncodeSwizzle x y z w
  = Z.lor (Z.lor (Z.lor ((x mod 2 ^ 8) * 2 ^ 24) ((y mod 2 ^ 16) * 2 ^ 16))
                 ((z mod 2 ^ 24) * 2 ^ 8))
          (w mod 2 ^ 32).
Proof.
  unfold EncodeSwizzle.
  rewrite (to_u32_shifted x 24 8), (to_u32_shifted y 16 16),
    (to_u32_shifted z 8 24) by lia.
  done.
Qed.

End SwizzleKey.

(** X11.  For arbitrary selector values the key [EncodeSwizzle] returns
    is a 32-bit value, and each selector enters it only through the bits
    that fit above its position: 8 bits of [x], 16 of [y], 24 of [z], 32
    of [w].  In particular selectors that differ by a multiple of 256 in
    [x] give the same key. *)
Theorem swizzle_key_cuts_selectors (x y z w k : Vulkan.SwizzleSource) :
  Int.is_u32 (Vulkan.EncodeSwizzle x y z w)
  ∧ Vulkan.EncodeSwizzle x y z w
    = Vulkan.EncodeSwizzle (x mod 2 ^ 8) (y mod 2 ^ 16) (z mod 2 ^ 24) (w mod 2 ^ 32)
  ∧ Vulkan.EncodeSwizzle (x + 256 * k) y z w = Vulkan.EncodeSwizzle x y z w.
Proof.
  split_and!.
  - unfold Vulkan.EncodeSwizzle, Int.is_u32.
    repeat apply lor_below; try lia; apply to_u32_range.
  - rewrite !EncodeSwizzle_parts.
    by rewrite !Z.mod_mod by lia.
  - rewrite !EncodeSwizzle_parts. do 4 f_equal.
    change (2 ^ 8) with 256.
    by rewrite (Z.mul_comm 256), Z.mod_add by lia.
Qed.

(** X12.  For selectors that fit in 8 bits the key can be read back: [x]
    is the key shifted right by 24, [y], [z] and [w] are the low bytes of
    the key shifted right by 16, 8 and 0. *)
Theorem swizzle_key_decodes (x y z w : Vulkan.SwizzleSource) :
  Int.is_u8 x → Int.is_u8 y → Int.is_u8 z → Int.is_u8 w →
  Z.shiftr (Vulkan.EncodeSwizzle x y z w) 24 = x
  ∧ Z.land (Z.shiftr (Vulkan.EncodeSwizzle x y z w) 16) 255 = y
  ∧ Z.land (Z.shiftr (Vulkan.EncodeSwizzle x y z w) 8) 255 = z
  ∧ Z.land (Vulkan.EncodeSwizzle x y z w) 255 = w.
Proof.
  intros Hx Hy Hz Hw. rewrite EncodeSwizzle_bytes by done.
  unfold Int.is_u8 in *.
  change 255 with (Z.ones 8). rewrite !Z.land_ones, !Z.shiftr_div_pow2 by lia.
  change (2 ^ 24) with 16777216. change (2 ^ 16) with 65536.
  change (2 ^ 8) with 256 in *.
  split_and!; Z.to_euclidean_division_equations; lia.
Qed.

Lemma swizzle_key_decodes_witness :
  Z.shiftr (Vulkan.EncodeSwizzle 2 3 4 5) 24 = 2
  ∧ Z.land (Z.shiftr (Vulkan.EncodeSwizzle 2 3 4 5) 16) 255 = 3
  ∧ Z.land (Z.shiftr (Vulkan.EncodeSwizzle 2 3 4 5) 8) 255 = 4
  ∧ Z.land (Vulkan.EncodeSwizzle 2 3 4 5) 255 = 5.
Proof.
  apply (swizzle_key_decodes 2 3 4 5); unfold Int.is_u8; lia.
Defined.

Section RegisterInfoBits.
Import DebugUtils.

Lemma hex_sum info :
  OutputRegisterInfo.hex info
  = OutputRegisterInfo.type info mod 2 ^ 16
    + (OutputRegisterInfo.id info mod 2 ^ 16) * 2 ^ 16
    + (OutputRegisterInfo.component_mask info mod 2 ^ 4) * 2 ^ 32.
Proof.
  unfold OutputRegisterInfo.hex. rewrite !Z.land_ones by lia.
  set (t := _ mod 2 ^ 16). set (i := _ mod 2 ^ 16). set (m := _ mod 2 ^ 4).
  assert (0 ≤ t < 2 ^ 16) by (apply Z.mod_pos_bound; lia).
  assert (0 ≤ i < 2 ^ 16) by (apply Z.mod_pos_bound; lia).
  assert (0 ≤ m < 2 ^ 4) by (apply Z.mod_pos_bound; lia).
  replace (Z.shiftl m 32) with (Z.shiftl (Z.shiftl m 16) 16)
    by (rewrite Z.shiftl_shiftl by lia; done).
  rewrite <- Z.shiftl_lor, (Z.lor_comm i), (lor_shiftl_low m i 16) by lia.
  rewrite Z.lor_comm, lor_shiftl_low by lia.
  lia.
Qed.

End RegisterInfoBits.

(** X13.  The three bit fields of an [OutputRegisterInfo] do not overlap:
    from the 64-bit value [hex], bits 0-15 give back the type, bits 16-31
    the register id and bits 32-35 the component mask, each as far as it
    fits its field, and nothing is set above bit 35. *)
Theorem output_register_info_fields_are_disjoint
    (info : DebugUtils.OutputRegisterInfo.t) :
  0 ≤ DebugUtils.OutputRegisterInfo.hex info < 2 ^ 36
  ∧ Z.land (DebugUtils.OutputRegisterInfo.hex info) (Z.ones 16)
    = DebugUtils.OutputRegisterInfo.type info mod 2 ^ 16
  ∧ Z.land (Z.shiftr (DebugUtils.OutputRegisterInfo.hex info) 16) (Z.ones 16)
    = DebugUtils.OutputRegisterInfo.id info mod 2 ^ 16
  ∧ Z.land (Z.shiftr (DebugUtils.OutputRegisterInfo.hex info) 32) (Z.ones 4)
    = DebugUtils.OutputRegisterInfo.component_mask info mod 2 ^ 4.
Proof.
  rewrite hex_sum.
  set (t := _ mod 2 ^ 16). set (i := _ mod 2 ^ 16). set (m := _ mod 2 ^ 4).
  assert (0 ≤ t < 2 ^ 16) by (apply Z.mod_pos_bound; lia).
  assert (0 ≤ i < 2 ^ 16) by (apply Z.mod_pos_bound; lia).
  assert (0 ≤ m < 2 ^ 4) by (apply Z.mod_pos_bound; lia).
  rewrite !Z.land_ones, !Z.shiftr_div_pow2 by lia.
  change (2 ^ 36) with 68719476736. change (2 ^ 32) with 4294967296.
  change (2 ^ 16) with 65536 in *. change (2 ^ 4) with 16 in *.
  split_and!; try lia; Z.to_euclidean_division_equations; lia.
Qed.

(** * Further properties of the surface views *)

(** X14.  Marking through a view reaches the surface the view refers to
    and no other: every other surface in the store is left as it was, no
    surface appears or disappears, and two views that are not of the same
    surface can be marked in either order with the same result. *)
Theorem mark_as_modified_is_local
    (surfaces : gmap nat Vulkan.CachedSurface)
    (v rhs : Vulkan.CachedSurfaceView) (tick tick' : Z) :
  Vulkan.IsSameSurface v rhs = false →
  Vulkan.MarkAsModified v tick surfaces !! Vulkan.surface rhs
    = surfaces !! Vulkan.surface rhs
  ∧ dom (Vulkan.MarkAsModified v tick surfaces) = dom surfaces
  ∧ Vulkan.MarkAsModified v tick (Vulkan.MarkAsModified rhs tick' surfaces)
    = Vulkan.MarkAsModified rhs tick' (Vulkan.MarkAsModified v tick surfaces).
Proof.
  unfold Vulkan.IsSameSurface. intros Hdiff.
  apply bool_decide_eq_false_1 in Hdiff.
  split_and!.
  - by apply MarkAsModified_other.
  - unfold Vulkan.MarkAsModified. apply dom_alter_L.
  - unfold Vulkan.MarkAsModified. by apply alter_alter_ne.
Qed.

Lemma mark_as_modified_is_local_witness :
  let s := {| Vulkan.is_modified := false; Vulkan.modification_tick := 3 |} in
  let view a :=
    {| Vulkan.surface := a;
       Vulkan.base_layer := 0; Vulkan.num_layers := 1;
       Vulkan.base_level := 0; Vulkan.num_levels := 1;
       Vulkan.view_cache := ∅ |} in
  Vulkan.MarkAsModified (view 1%nat) 9 {[ 1%nat := s; 2%nat := s ]} !! 2%nat
  = Some s.
Proof.
  intros s view.
  destruct (mark_as_modified_is_local {[ 1%nat := s; 2%nat := s ]}
              (view 1%nat) (view 2%nat) 9 9) as [Hother _]; [reflexivity|].
  etrans; [exact Hother | reflexivity].
Defined.
